(** * BigchainDB elections: a shallow embedding of
      [bigchaindb/elections/election.py] and its specification.

    The Python class [Election] is embedded function by function.  Python
    [int] is [Z]; [dict] is stdpp's [gmap]; [str] is [string]; an exception
    is the left injection of a sum; code that talks to the chain facade
    ([bigchain.*]) lives in a small state-and-exception monad over the
    chain state. *)

From Stdlib Require Import ZArith NArith Zpow_facts List Bool Lia.
From Stdlib.Strings Require Import Ascii String Byte.
From Stdlib Require Import SpecFloat.
From stdpp Require Import gmap strings list.

Local Open Scope Z_scope.

(** ** Exceptions and results *)

(** The exceptions [election.py] imports or lets escape.  [InvalidElectionId]
    is named by the specification only; no statement of the source raises it. *)
Inductive exn : Type :=
  | InvalidSignature
  | MultipleInputsError
  | InvalidProposer
  | UnequalValidatorSet
  | DuplicateTransaction
  | NotImplementedError
  | ValueError
  | KeyError
  | OverflowError
  | InvalidElectionId.

(** A Python call either raises or returns. *)
Definition result (A : Type) : Type := (exn + A)%type.
Definition Raise {A : Type} (e : exn) : result A := inl e.
Definition Return {A : Type} (a : A) : result A := inr a.

(** ** Data model: the attributes of [Transaction] the elections read *)

Record Output : Type := mkOutput {
  public_keys : list string;
  amount : Z
}.

Record Input : Type := mkInput {
  owners_before : list string
}.

(** [asset_id] is [tx.asset['id']], present on transfer-like transactions
    (votes) and absent on create-like ones (elections). *)
Record Transaction : Type := mkTransaction {
  id : string;
  operation : string;
  asset_id : option string;
  inputs : list Input;
  outputs : list Output
}.

(** [Vote.OPERATION] of [bigchaindb/elections/vote.py]. *)
Definition Vote_OPERATION : string := "VOTE".

(** [isinstance(tx, Vote)]: transactions are instantiated by operation tag. *)
Definition is_Vote (tx : Transaction) : bool :=
  String.eqb (operation tx) Vote_OPERATION.

(** ** Tally engine: [Election.count_votes] *)

(** The body of the inner loop: one output, accumulator [votes]. *)
Definition count_output (election_pk : string) (votes : Z) (output : Output) : Z :=
  if (length (public_keys output) =? 1)%nat
     && bool_decide ([election_pk] = public_keys output)
  then votes + amount output
  else votes.

(** The body of the outer loop: one transaction, accumulator [votes]. *)
Definition count_txn (election_pk : string) (votes : Z) (txn : Transaction) : Z :=
  if String.eqb (operation txn) Vote_OPERATION
  then fold_left (count_output election_pk) (outputs txn) votes
  else votes.

Definition count_votes (election_pk : string) (transactions : list Transaction) : Z :=
  fold_left (count_txn election_pk) transactions 0.

(** The tally as the specification words it: the sum, over the transactions
    whose operation is VOTE, over their outputs, of the amount when the
    output's [public_keys] is exactly the singleton [[election_pk]], and 0
    for every other output. *)
Definition Zsum (l : list Z) : Z := foldr Z.add 0 l.

Definition output_contribution (election_pk : string) (o : Output) : Z :=
  if bool_decide (public_keys o = [election_pk]) then amount o else 0.

Definition txn_contribution (election_pk : string) (tx : Transaction) : Z :=
  if bool_decide (operation tx = Vote_OPERATION)
  then Zsum (map (output_contribution election_pk) (outputs tx))
  else 0.

Definition count_votes_spec (election_pk : string) (txs : list Transaction) : Z :=
  Zsum (map (txn_contribution election_pk) txs).

(** Every output carries a non-negative amount (the transaction layer
    rejects amounts below 1). *)
Definition amounts_nonneg (txs : list Transaction) : Prop :=
  Forall (fun tx => Forall (fun o => 0 <= amount o) (outputs tx)) txs.

(** ** Topology check: [Election.is_same_topology] *)

(** The loop over [election_topology], with the dictionary [voters] built so
    far.  An output with more than one key returns [False] at once; the
    unpacking [[public_key] = voter.public_keys] raises [ValueError] on an
    empty list; a later output to the same key overwrites the earlier one. *)
Fixpoint is_same_topology_loop (voters : gmap string Z)
    (current_topology : gmap string Z) (election_topology : list Output)
    : result bool :=
  match election_topology with
  | [] => Return (bool_decide (current_topology = voters))
  | voter :: rest =>
      if (1 <? length (public_keys voter))%nat then Return false
      else match public_keys voter with
           | [public_key] =>
               let voting_power := amount voter in
               is_same_topology_loop (<[public_key := voting_power]> voters)
                                     current_topology rest
           | _ => Raise ValueError
           end
  end.

Definition is_same_topology (current_topology : gmap string Z)
    (election_topology : list Output) : result bool :=
  is_same_topology_loop ∅ current_topology election_topology.

(** The map built from the (public key, amount) pairs of outputs that each
    carry one key, later pairs replacing earlier ones. *)
Definition add_voter (voters : gmap string Z) (o : Output) : gmap string Z :=
  <[hd "" (public_keys o) := amount o]> voters.

Definition voters_of (outs : list Output) : gmap string Z :=
  fold_left add_voter outs ∅.

(** An output is well-formed for the topology check when it has one key. *)
Definition single_key (o : Output) : bool :=
  (length (public_keys o) =? 1)%nat.

(** ** Key derivation: [Election.to_public_key] *)

(** *** [bytes.fromhex] (Python standard library) *)

(** The value of a hexadecimal digit, upper or lower case. *)
Definition hex_digit (c : ascii) : option N :=
  let n := N_of_ascii c in
  if (48 <=? n)%N && (n <=? 57)%N then Some (n - 48)%N
  else if (97 <=? n)%N && (n <=? 102)%N then Some (n - 87)%N
  else if (65 <=? n)%N && (n <=? 70)%N then Some (n - 55)%N
  else None.

(** ASCII whitespace, skipped between two bytes. *)
Definition is_space (c : ascii) : bool :=
  let n := N_of_ascii c in
  (n =? 32)%N || ((9 <=? n)%N && (n <=? 13)%N).

Definition make_byte (top bot : N) : byte :=
  byte_of_ascii (ascii_of_N (16 * top + bot)).

(** Two digits per byte; whitespace is allowed before a byte, not inside
    one; [None] stands for the [ValueError] the library raises. *)
Fixpoint fromhex (s : string) : option (list byte) :=
  match s with
  | EmptyString => Some []
  | String c rest =>
      if is_space c then fromhex rest
      else match hex_digit c, rest with
           | Some top, String c' rest' =>
               match hex_digit c' with
               | Some bot =>
                   match fromhex rest' with
                   | Some bs => Some (make_byte top bot :: bs)
                   | None => None
                   end
               | None => None
               end
           | _, _ => None
           end
  end.

(** *** [base58.b58encode] (the [base58] package) *)

Definition alphabet : string :=
  "123456789ABCDEFGHJKLMNPQRSTUVWXYZabcdefghijkmnopqrstuvwxyz".

Definition alphabet_at (idx : N) : ascii :=
  match String.get (N.to_nat idx) alphabet with
  | Some c => c
  | None => "1"%char
  end.

(** [while i: i, idx = divmod(i, 58); string = alphabet[idx] + string]. *)
Fixpoint b58encode_int_loop (fuel : nat) (i : N) (acc : string) : string :=
  match fuel with
  | O => acc
  | S fuel' =>
      if (i =? 0)%N then acc
      else b58encode_int_loop fuel' (i / 58)%N (String (alphabet_at (i mod 58)%N) acc)
  end.

(** Each turn at least halves [i], so its bit length bounds the turns. *)
Definition b58encode_int (i : N) : string :=
  b58encode_int_loop (N.size_nat i) i EmptyString.

Fixpoint lstrip0 (v : list byte) : list byte :=
  match v with
  | x00 :: v' => lstrip0 v'
  | _ => v
  end.

(** [for c in reversed(v): acc += p * c; p = p << 8]. *)
Definition bytes_to_int (v : list byte) : N :=
  snd (fold_left (fun '(p, acc) c => (N.shiftl p 8, acc + p * Byte.to_N c)%N)
                 (rev v) (1%N, 0%N)).

Fixpoint replicate_char (n : nat) (c : ascii) : string :=
  match n with
  | O => EmptyString
  | S n' => String c (replicate_char n' c)
  end.

Definition b58encode (v : list byte) : string :=
  let nPad := (length v - length (lstrip0 v))%nat in
  let v := lstrip0 v in
  let result := b58encode_int (bytes_to_int v) in
  replicate_char nPad (alphabet_at 0) +:+ result.

(** [base58.b58encode(bytes.fromhex(election_id)).decode()]; the only
    exception that can escape is the [ValueError] of [bytes.fromhex]. *)
Definition to_public_key (election_id : string) : result string :=
  match fromhex election_id with
  | Some v => Return (b58encode v)
  | None => Raise ValueError
  end.

(** The identifiers the specification calls well-formed: an even number of
    hexadecimal digits and nothing else. *)
Fixpoint is_hex_string (s : string) : bool :=
  match s with
  | EmptyString => true
  | String c (String c' rest) =>
      match hex_digit c, hex_digit c' with
      | Some _, Some _ => is_hex_string rest
      | _, _ => false
      end
  | String _ EmptyString => false
  end.

(** The hex-decoding of a well-formed identifier, as the specification
    words it: one byte per pair of digits, the first digit the high nibble. *)
Fixpoint hex_decode (s : string) : list byte :=
  match s with
  | String c (String c' rest) =>
      match hex_digit c, hex_digit c' with
      | Some top, Some bot => make_byte top bot :: hex_decode rest
      | _, _ => []
      end
  | _ => []
  end.

(** Transaction ids are hexdigests: lower-case hexadecimal digits and
    nothing else. *)
Definition is_lower_hex_digit (c : ascii) : bool :=
  let n := N_of_ascii c in
  ((48 <=? n)%N && (n <=? 57)%N) || ((97 <=? n)%N && (n <=? 102)%N).

Fixpoint is_hexdigest (s : string) : bool :=
  match s with
  | EmptyString => true
  | String c rest => is_lower_hex_digit c && is_hexdigest rest
  end.

(** ** The chain facade [bigchain] *)

Record Block : Type := mkBlock { block_height : Z }.

Record ValidatorChange : Type := mkValidatorChange {
  change_height : Z;
  change_validators : list (string * Z)
}.

(** One entry of [bigchain.get_validators()]:
    [{'public_key': {'value': <base64>}, 'voting_power': <int>}]. *)
Record Validator : Type := mkValidator {
  public_key_value : string;
  voting_power : Z
}.

Record ElectionResult : Type := mkElectionResult {
  result_election_id : string;
  result_height : Z
}.

Module Chain.

(** Modelled from the spec: the chain facade of section 6, implemented by
    [bigchaindb/lib.py] and [bigchaindb/backend/query.py].  The state of the
    chain is what its read methods answer; [store_election_results] is the
    one write the elections use and records an [ElectionResult] keyed by the
    election id. *)
Record t : Type := mk {
  get_latest_block : option Block;
  get_validator_change : Z -> option ValidatorChange;
  get_validators : option Z -> list Validator;
  is_committed : string -> bool;
  get_block_containing_tx : string -> list Z;
  get_transaction : string -> option Transaction;
  get_election : string -> option ElectionResult;
  get_asset_tokens_for_public_key : string -> string -> list Transaction
}.

Definition store_election_results (height : Z) (election : Transaction) (b : t) : t :=
  {| get_latest_block := get_latest_block b;
     get_validator_change := get_validator_change b;
     get_validators := get_validators b;
     is_committed := is_committed b;
     get_block_containing_tx := get_block_containing_tx b;
     get_transaction := get_transaction b;
     get_election := fun election_id =>
       if String.eqb election_id (id election)
       then Some (mkElectionResult (id election) height)
       else get_election b election_id;
     get_asset_tokens_for_public_key := get_asset_tokens_for_public_key b |}.

End Chain.

(** ** A state-and-exception monad over the chain *)

Definition M (A : Type) : Type := Chain.t -> result A * Chain.t.

Definition ret {A} (a : A) : M A := fun b => (Return a, b).
Definition raise {A} (e : exn) : M A := fun b => (Raise e, b).
Definition bind {A B} (m : M A) (k : A -> M B) : M B :=
  fun b => match m b with
           | (inl e, b') => (inl e, b')
           | (inr a, b') => k a b'
           end.
Definition reads {A} (f : Chain.t -> A) : M A := fun b => (Return (f b), b).
Definition modify (f : Chain.t -> Chain.t) : M unit := fun b => (Return tt, f b).
Definition lift {A} (r : result A) : M A := fun b => (r, b).

Notation "'let*' x ':=' m 'in' k" := (bind m (fun x => k))
  (at level 10, x name, m at level 100, k at level 200).

(** A computation is read-only when it hands back the state it was given. *)
Definition read_only {A} (m : M A) : Prop := forall b, snd (m b) = b.

(** ** Double-precision arithmetic of the threshold [(2/3) * total_votes] *)

Definition prec : Z := 53.
Definition emax : Z := 1024.

(** [float(n)] for a Python [int]: the nearest double, ties to even;
    [OverflowError] when no finite double is nearest. *)
Definition float_of_int (n : Z) : result spec_float :=
  match binary_normalize prec emax n 0 false with
  | S754_infinity _ => Raise OverflowError
  | f => Return f
  end.

(** The constant [2 / 3]: the correctly rounded quotient of two ints. *)
Definition two_thirds : spec_float :=
  SFdiv prec emax (binary_normalize prec emax 2 0 false)
                  (binary_normalize prec emax 3 0 false).

(** [x * n] for a float [x] and an int [n]: [n] is converted first. *)
Definition float_mul_int (x : spec_float) (n : Z) : result spec_float :=
  match float_of_int n with
  | inl e => inl e
  | inr f => Return (SFmul prec emax x f)
  end.

(** Python compares an [int] with a [float] by their exact values. *)
Definition int_compare_float (c : Z) (x : spec_float) : option comparison :=
  match x with
  | S754_nan => None
  | S754_infinity s => Some (if s then Gt else Lt)
  | S754_zero _ => Some (c ?= 0)
  | S754_finite s m e =>
      let v := cond_Zopp s (Z.pos m) in
      Some (if 0 <=? e then c ?= v * 2 ^ e else c * 2 ^ (- e) ?= v)
  end.

Definition int_lt_float (c : Z) (x : spec_float) : bool :=
  match int_compare_float c x with
  | Some Lt => true
  | _ => false
  end.

Definition int_ge_float (c : Z) (x : spec_float) : bool :=
  match int_compare_float c x with
  | Some Gt | Some Eq => true
  | _ => false
  end.

(** [sum(d.values())]. *)
Definition sum_values (d : gmap string Z) : Z :=
  map_fold (fun _ v acc => acc + v) 0 d.

(** The election statuses. *)
Inductive Status : Type := ONGOING | CONCLUDED | INCONCLUSIVE.

(** ** Scenarios: concrete chains, elections and votes *)

Module Scenario.

(** A validator election whose update is tagged with the election id. *)
Definition on_approval (election : Transaction) (new_height : Z) : M (option string) :=
  ret (Some (id election)).

Definition decode_public_key (value : string) : string := value.

Definition inputs_valid (tx : Transaction) (outputs : list Output) : bool := true.

Definition election_pk (election_id : string) : string :=
  match to_public_key election_id with
  | inr pk => pk
  | inl _ => ""
  end.

Definition election (election_id : string) (outs : list (string * Z)) : Transaction :=
  {| id := election_id;
     operation := "VALIDATOR_ELECTION";
     asset_id := None;
     inputs := [mkInput ["A"]];
     outputs := map (fun '(pk, power) => mkOutput [pk] power) outs |}.

Definition vote (vote_id election_id voter : string) (power : Z) : Transaction :=
  {| id := vote_id;
     operation := "VOTE";
     asset_id := Some election_id;
     inputs := [mkInput [voter]];
     outputs := [mkOutput [election_pk election_id] power] |}.

(** A chain given by its validators, the elections it stores, and the
    votes already committed. *)
Definition chain (validators : list Validator) (elections : list Transaction)
    (committed_votes : list Transaction) (latest_block : option Block)
    (latest_change : option ValidatorChange) (election_height : list Z) : Chain.t :=
  {| Chain.get_latest_block := latest_block;
     Chain.get_validator_change := fun _ => latest_change;
     Chain.get_validators := fun _ => validators;
     Chain.is_committed := fun _ => false;
     Chain.get_block_containing_tx := fun _ => election_height;
     Chain.get_transaction := fun election_id =>
       find (fun e => String.eqb (id e) election_id) elections;
     Chain.get_election := fun _ => None;
     Chain.get_asset_tokens_for_public_key := fun election_id pk =>
       filter (fun tx => asset_id tx = Some election_id
                         /\ Exists (fun o => pk ∈ public_keys o) (outputs tx))
              committed_votes |}.

Definition ABC : list Validator :=
  [mkValidator "A" 5; mkValidator "B" 5; mkValidator "C" 5].

Definition E1 : Transaction := election "aa" [("A", 5); ("B", 5); ("C", 5)].
Definition E2 : Transaction := election "bb" [("A", 5); ("B", 5); ("C", 5)].

End Scenario.

(** ** The class [Election] *)

Section Election.

Set Default Proof Using "Type".

(** What a validator update is on the wire is the subtype's business. *)
Context {ValidatorUpdate : Type}.

(** [public_key_from_ed25519_key(key_from_base64(value))] of
    [bigchaindb.common.crypto] and [bigchaindb.tendermint_utils]. *)
Variable decode_public_key : string -> string.

(** [Transaction.inputs_valid(outputs)] of [bigchaindb.common.transaction]. *)
Variable inputs_valid : Transaction -> list Output -> bool.

(** The hook [on_approval(bigchain, new_height)] a concrete election
    provides; it may write to the chain, raise, or return [None]. *)
Variable on_approval : Transaction -> Z -> M (option ValidatorUpdate).

Definition get_validator_change (bigchain : Chain.t) : option ValidatorChange :=
  match Chain.get_latest_block bigchain with
  | None => None
  | Some latest_block =>
      Chain.get_validator_change bigchain (block_height latest_block)
  end.

Definition get_validators (bigchain : Chain.t) (height : option Z) : gmap string Z :=
  fold_left
    (fun validators validator =>
       let public_key := decode_public_key (public_key_value validator) in
       <[public_key := voting_power validator]> validators)
    (Chain.get_validators bigchain height) ∅.

Definition validate (self : Transaction) (current_transactions : list Transaction)
    : M Transaction :=
  let input_conditions : list Output := [] in
  let duplicates :=
    existsb (fun txn => String.eqb (id txn) (id self)) current_transactions in
  let* committed := reads (fun bigchain => Chain.is_committed bigchain (id self)) in
  if committed || duplicates then raise DuplicateTransaction else
  if negb (inputs_valid self input_conditions) then raise InvalidSignature else
  let* current_validators := reads (fun bigchain => get_validators bigchain None) in
  match inputs self with
  | [input] =>
      match owners_before input with
      | [election_initiator_node_pub_key] =>
          if negb (bool_decide
                     (is_Some (current_validators !! election_initiator_node_pub_key)))
          then raise InvalidProposer
          else
            let* same := lift (is_same_topology current_validators (outputs self)) in
            if negb same then raise UnequalValidatorSet else ret self
      | _ => raise MultipleInputsError
      end
  | _ => raise MultipleInputsError
  end.

Definition get_commited_votes (self : Transaction) (election_pk : string)
    (bigchain : Chain.t) : Z :=
  let txns := Chain.get_asset_tokens_for_public_key bigchain (id self) election_pk in
  count_votes election_pk txns.

Definition has_validator_set_changed (self : Transaction) (bigchain : Chain.t) : bool :=
  match get_validator_change bigchain with
  | None => false
  | Some latest_change =>
      let latest_change_height := change_height latest_change in
      match Chain.get_block_containing_tx bigchain (id self) with
      | [] => false
      | election_height :: _ => election_height <? latest_change_height
      end
  end.

Definition has_concluded (self : Transaction) (current_votes : list Transaction)
    : M bool :=
  let* election_pk := lift (to_public_key (id self)) in
  let* votes_committed := reads (get_commited_votes self election_pk) in
  let votes_current := count_votes election_pk current_votes in
  let* changed := reads (has_validator_set_changed self) in
  if changed then ret false else
  let* current_validators := reads (fun bigchain => get_validators bigchain None) in
  let total_votes := sum_values current_validators in
  let* threshold := lift (float_mul_int two_thirds total_votes) in
  if int_lt_float votes_committed threshold
     && int_ge_float (votes_committed + votes_current) threshold
  then ret true
  else ret false.

Definition get_election (election_id : string) (bigchain : Chain.t)
    : option ElectionResult :=
  Chain.get_election bigchain election_id.

Definition get_status (self : Transaction) (bigchain : Chain.t) : Status :=
  match get_election (id self) bigchain with
  | Some _ => CONCLUDED
  | None =>
      if has_validator_set_changed self bigchain then INCONCLUSIVE else ONGOING
  end.

Definition store_election_results (election : Transaction) (height : Z) : M unit :=
  modify (Chain.store_election_results height election).

(** The first loop of [approved_elections]: [elections] is an
    [OrderedDict] from election id to the votes seen for it, in order of
    first appearance. *)
Fixpoint append_vote (elections : list (string * list Transaction))
    (election_id : string) (tx : Transaction) : list (string * list Transaction) :=
  match elections with
  | [] => [(election_id, [tx])]
  | (k, votes) :: rest =>
      if String.eqb k election_id then (k, votes ++ [tx]) :: rest
      else (k, votes) :: append_vote rest election_id tx
  end.

Fixpoint group_votes (txns : list Transaction)
    (elections : list (string * list Transaction))
    : result (list (string * list Transaction)) :=
  match txns with
  | [] => Return elections
  | tx :: rest =>
      if negb (is_Vote tx) then group_votes rest elections
      else match asset_id tx with
           | None => Raise KeyError
           | Some election_id => group_votes rest (append_vote elections election_id tx)
           end
  end.

(** The second loop, with the variable [validator_update] it assigns. *)
Fixpoint approve_loop (new_height : Z) (elections : list (string * list Transaction))
    (validator_update : option ValidatorUpdate) : M (option ValidatorUpdate) :=
  match elections with
  | [] => ret validator_update
  | (election_id, votes) :: rest =>
      let* election := reads (fun bigchain => Chain.get_transaction bigchain election_id) in
      match election with
      | None => approve_loop new_height rest validator_update
      | Some election =>
          let* concluded := has_concluded election votes in
          if negb concluded then approve_loop new_height rest validator_update
          else
            let* validator_update := on_approval election new_height in
            let* _ := store_election_results election new_height in
            approve_loop new_height rest validator_update
      end
  end.

Definition approved_elections (new_height : Z) (txns : list Transaction)
    : M (list ValidatorUpdate) :=
  let* elections := lift (group_votes txns []) in
  let* validator_update := approve_loop new_height elections None in
  ret (match validator_update with
       | Some u => [u]
       | None => []
       end).

(** The total voting power [has_concluded] computes. *)
Definition total_votes (bigchain : Chain.t) : Z :=
  sum_values (get_validators bigchain None).

(** The driver as the specification words it (section 4.F): for each
    election in order, skip it when it is not found or has not concluded,
    otherwise call its hook, persist the result, and retain the update the
    hook returned, null or not. *)
Fixpoint approve_trace (new_height : Z) (elections : list (string * list Transaction))
    : M (list (option ValidatorUpdate)) :=
  match elections with
  | [] => ret []
  | (election_id, votes) :: rest =>
      let* election := reads (fun bigchain => Chain.get_transaction bigchain election_id) in
      match election with
      | None => approve_trace new_height rest
      | Some election =>
          let* concluded := has_concluded election votes in
          if negb concluded then approve_trace new_height rest
          else
            let* update := on_approval election new_height in
            let* _ := store_election_results election new_height in
            let* updates := approve_trace new_height rest in
            ret (update :: updates)
      end
  end.

(** The updates of the elections a block concludes, in processing order. *)
Definition concluded_updates (new_height : Z) (txns : list Transaction)
    : M (list (option ValidatorUpdate)) :=
  let* elections := lift (group_votes txns []) in
  approve_trace new_height elections.

(** Step 3 of the specification: the list of the non-null updates. *)
Definition approved_elections_spec (new_height : Z) (txns : list Transaction)
    : M (list ValidatorUpdate) :=
  let* updates := concluded_updates new_height txns in
  ret (omap (fun update => update) updates).

(** What the code returns instead: the last retained update, if not null. *)
Definition last_update (updates : list (option ValidatorUpdate))
    : list ValidatorUpdate :=
  match last updates with
  | Some (Some u) => [u]
  | _ => []
  end.

(** ** Further definitions used by the properties below *)

(** A transaction that [count_votes] can count for [election_pk]: a vote
    with at least one output to exactly that key. *)
Definition votes_for_key (election_pk : string) (tx : Transaction) : bool :=
  is_Vote tx
  && existsb (fun o => bool_decide (public_keys o = [election_pk])) (outputs tx).

(** The (public key, amount) pair an output with one key stands for. *)
Definition output_pair (o : Output) : string * Z :=
  (hd "" (public_keys o), amount o).

(** The entries of [bigchain.get_validators(height)], decoded. *)
Definition validator_entries (bigchain : Chain.t) (height : option Z)
    : list (string * Z) :=
  map (fun validator =>
         (decode_public_key (public_key_value validator), voting_power validator))
      (Chain.get_validators bigchain height).

(** [d[k] = v] on a Python [dict] seen as the list of its items: a key
    already present keeps its place and takes the new value, a new key goes
    to the end. *)
Fixpoint dict_set (items : list (string * Z)) (k : string) (v : Z)
    : list (string * Z) :=
  match items with
  | [] => [(k, v)]
  | (k', v') :: rest =>
      if String.eqb k' k then (k', v) :: rest
      else (k', v') :: dict_set rest k v
  end.

(** [get_validators(bigchain).items()]: the dictionary [get_validators]
    builds, in the order Python iterates over it. *)
Definition get_validators_items (bigchain : Chain.t) (height : option Z)
    : list (string * Z) :=
  fold_left
    (fun validators validator =>
       let public_key := decode_public_key (public_key_value validator) in
       dict_set validators public_key (voting_power validator))
    (Chain.get_validators bigchain height) [].

Definition recipients (bigchain : Chain.t) : list (list string * Z) :=
  fold_left
    (fun recipients '(public_key, voting_power) =>
       recipients ++ [([public_key], voting_power)])
    (get_validators_items bigchain None) [].

(** The outputs [Transaction.create] makes of a recipient list: one output
    per recipient, with its keys and its amount. *)
Definition outputs_of_recipients (recipients : list (list string * Z))
    : list Output :=
  map (fun '(keys, amount) => mkOutput keys amount) recipients.

(** The election ids the votes of a block refer to, in block order. *)
Definition vote_ids (txns : list Transaction) : list string :=
  omap (fun tx => if is_Vote tx then asset_id tx else None) txns.

(** The votes of a block for one election, in block order. *)
Definition votes_of (election_id : string) (txns : list Transaction)
    : list Transaction :=
  List.filter
    (fun tx => is_Vote tx && bool_decide (asset_id tx = Some election_id)) txns.

(** The key list of an [OrderedDict] after [d.setdefault(x, ...)]. *)
Definition add_new (seen : list string) (x : string) : list string :=
  if decide (x ∈ seen) then seen else seen ++ [x].

(** The distinct elements of a list, in order of first appearance. *)
Fixpoint first_seen (ids : list string) : list string :=
  match ids with
  | [] => []
  | x :: rest => x :: filter (fun y => y <> x) (first_seen rest)
  end.

(** [elections[election_id]], or the empty list for a missing key. *)
Definition lookup_votes (elections : list (string * list Transaction))
    (election_id : string) : list Transaction :=
  match find (fun entry => String.eqb entry.1 election_id) elections with
  | Some entry => entry.2
  | None => []
  end.

(** [on_approval] of the class [Election] itself. *)
Definition on_approval_base (self : Transaction) (new_height : Z)
    : M (option ValidatorUpdate) :=
  raise NotImplementedError.

(** * Properties *)

(** ** The tally *)

(** *** Lemmas on the two loops *)

Lemma count_output_contribution pk votes o :
  count_output pk votes o = votes + output_contribution pk o.
Proof.
  unfold count_output, output_contribution.
  destruct (decide (public_keys o = [pk])) as [He|Hne].
  - rewrite He. simpl Nat.eqb.
    rewrite !bool_decide_eq_true_2 by reflexivity. reflexivity.
  - rewrite (bool_decide_eq_false_2 ([pk] = _)) by congruence.
    rewrite (bool_decide_eq_false_2 (_ = [pk])) by exact Hne.
    rewrite andb_false_r. lia.
Qed.

Lemma fold_count_output pk os votes :
  fold_left (count_output pk) os votes
  = votes + Zsum (map (output_contribution pk) os).
Proof.
  revert votes. induction os as [|o os IH]; intros votes; simpl.
  - lia.
  - rewrite IH, count_output_contribution. lia.
Qed.

Lemma count_txn_contribution pk votes tx :
  count_txn pk votes tx = votes + txn_contribution pk tx.
Proof.
  unfold count_txn, txn_contribution.
  destruct (String.eqb_spec (operation tx) Vote_OPERATION) as [He|He].
  - rewrite bool_decide_eq_true_2 by exact He. apply fold_count_output.
  - rewrite bool_decide_eq_false_2 by exact He. lia.
Qed.

Lemma fold_count_txn pk txs votes :
  fold_left (count_txn pk) txs votes
  = votes + Zsum (map (txn_contribution pk) txs).
Proof.
  revert votes. induction txs as [|tx txs IH]; intros votes; simpl.
  - lia.
  - rewrite IH, count_txn_contribution. lia.
Qed.

Lemma Zsum_app l1 l2 : Zsum (l1 ++ l2) = Zsum l1 + Zsum l2.
Proof. induction l1 as [|x l1 IH]; simpl; lia. Qed.

Lemma Zsum_nonneg l : Forall (fun x => 0 <= x) l -> 0 <= Zsum l.
Proof. induction 1; simpl; lia. Qed.

Lemma count_votes_unfold pk txs :
  count_votes pk txs = Zsum (map (txn_contribution pk) txs).
Proof. unfold count_votes. rewrite fold_count_txn. lia. Qed.

Lemma output_contribution_nonneg pk o :
  0 <= amount o -> 0 <= output_contribution pk o.
Proof. unfold output_contribution. case_bool_decide; lia. Qed.

Lemma txn_contribution_nonneg pk tx :
  Forall (fun o => 0 <= amount o) (outputs tx) -> 0 <= txn_contribution pk tx.
Proof.
  intros H. unfold txn_contribution. case_bool_decide; [|lia].
  apply Zsum_nonneg. induction H; simpl; constructor; auto.
  now apply output_contribution_nonneg.
Qed.

(** C5. For every election public key and every list of transactions,
    [count_votes] equals the sum, over the transactions whose operation is
    VOTE, of the amounts of the outputs whose [public_keys] is exactly the
    singleton [[pk]]; every other output contributes 0, in particular one
    that lists [pk] alongside other keys. *)
Theorem count_votes_exact_singleton (pk : string) (txs : list Transaction) :
  count_votes pk txs = count_votes_spec pk txs
  /\ (forall votes o, public_keys o <> [pk] -> count_output pk votes o = votes)
  /\ (forall votes o, pk ∈ public_keys o -> (length (public_keys o) > 1)%nat ->
        count_output pk votes o = votes).
Proof.
  assert (Hother : forall votes o,
            public_keys o <> [pk] -> count_output pk votes o = votes).
  { intros votes o Hne. rewrite count_output_contribution.
    unfold output_contribution. rewrite bool_decide_eq_false_2 by exact Hne. lia. }
  split; [apply count_votes_unfold|]. split; [exact Hother|].
  intros votes o _ Hlen. apply Hother.
  intros Heq. rewrite Heq in Hlen. simpl in Hlen. lia.
Qed.

(** C9. [count_votes] is additive over concatenation and 0 on the empty
    list, so a tally over a block is the sum of the per-transaction tallies;
    with the transaction layer's non-negative amounts it is never negative. *)
Theorem count_votes_additive (pk : string) (xs ys : list Transaction) :
  count_votes pk (xs ++ ys) = count_votes pk xs + count_votes pk ys
  /\ count_votes pk [] = 0
  /\ count_votes pk xs = Zsum (map (fun tx => count_votes pk [tx]) xs)
  /\ (amounts_nonneg xs -> 0 <= count_votes pk xs).
Proof.
  repeat split.
  - rewrite !count_votes_unfold, map_app. apply Zsum_app.
  - rewrite !count_votes_unfold. f_equal. apply map_ext.
    intros tx. rewrite count_votes_unfold. simpl. lia.
  - intros H. rewrite count_votes_unfold. apply Zsum_nonneg.
    induction H; simpl; constructor; auto.
    now apply txn_contribution_nonneg.
Qed.

(** ** The topology check *)

Lemma is_same_topology_loop_single voters ct outs :
  forallb single_key outs = true ->
  is_same_topology_loop voters ct outs
  = Return (bool_decide (ct = fold_left add_voter outs voters)).
Proof.
  revert voters. induction outs as [|o outs IH]; intros voters Hall; simpl.
  - reflexivity.
  - simpl in Hall. apply andb_prop in Hall as [Ho Hall].
    unfold single_key in Ho. apply Nat.eqb_eq in Ho.
    destruct (public_keys o) as [|k [|k' ks]] eqn:Hk; simpl in Ho; try lia.
    simpl. rewrite IH by exact Hall.
    replace (add_voter voters o) with (<[k := amount o]> voters)
      by (unfold add_voter; now rewrite Hk).
    reflexivity.
Qed.

Lemma is_same_topology_loop_first_bad voters ct outs o :
  find (fun o => negb (single_key o)) outs = Some o ->
  is_same_topology_loop voters ct outs
  = if (length (public_keys o) =? 0)%nat then Raise ValueError else Return false.
Proof.
  revert voters. induction outs as [|o' outs IH]; intros voters Hfind; simpl in *.
  - discriminate.
  - unfold single_key in Hfind at 1.
    destruct (public_keys o') as [|k [|k' ks]] eqn:Hk; simpl in Hfind.
    + injection Hfind as <-. rewrite Hk. reflexivity.
    + simpl. apply IH. exact Hfind.
    + injection Hfind as <-. rewrite Hk. reflexivity.
Qed.

Lemma find_none_forallb {A} (p : A -> bool) (l : list A) :
  find (fun x => negb (p x)) l = None -> forallb p l = true.
Proof.
  induction l as [|x l IH]; simpl; [reflexivity|].
  destruct (p x); simpl; [exact IH | discriminate].
Qed.

Lemma find_some_not_forallb {A} (p : A -> bool) (l : list A) (x : A) :
  find (fun x => negb (p x)) l = Some x -> forallb p l = false.
Proof.
  induction l as [|y l IH]; simpl; [discriminate|].
  destruct (p y); simpl; [exact IH | reflexivity].
Qed.

Lemma is_same_topology_loop_raises voters ct outs e :
  is_same_topology_loop voters ct outs = Raise e -> e = ValueError.
Proof.
  unfold Return, Raise.
  revert voters.
  induction outs as [|o outs IH]; intros voters; cbn [is_same_topology_loop].
  - discriminate.
  - destruct (1 <? length (public_keys o))%nat; [discriminate|].
    destruct (public_keys o) as [|k [|k' ks]].
    + now intros [= <-].
    + apply IH.
    + now intros [= <-].
Qed.

(** [is_same_topology], case by case.  It is decided by the first
    output whose [public_keys] has cardinality other than 1: when that
    output has no key the call fails with [ValueError]; when it has two or
    more keys the call returns false; when there is no such output the call
    returns whether the map built from the (public key, amount) pairs equals
    the validator map.  Hence it returns true exactly when every output has
    one key and the two maps agree on every key (same key set, equal values). *)
Theorem is_same_topology_first_bad_output
    (current_topology : gmap string Z) (outs : list Output) :
  match find (fun o => negb (single_key o)) outs with
  | Some o =>
      is_same_topology current_topology outs
      = if (length (public_keys o) =? 0)%nat
        then Raise ValueError else Return false
  | None =>
      is_same_topology current_topology outs
      = Return (bool_decide (current_topology = voters_of outs))
  end
  /\ (is_same_topology current_topology outs = Return true
      <-> forallb single_key outs = true
          /\ forall pk, current_topology !! pk = voters_of outs !! pk).
Proof.
  unfold is_same_topology, voters_of.
  destruct (find _ outs) as [o|] eqn:Hfind.
  - pose proof (is_same_topology_loop_first_bad ∅ current_topology outs o Hfind) as E.
    split; [exact E|]. rewrite E.
    apply find_some_not_forallb in Hfind. rewrite Hfind.
    split.
    + destruct (_ =? _)%nat; discriminate.
    + intros [? _]. discriminate.
  - apply find_none_forallb in Hfind.
    rewrite is_same_topology_loop_single by exact Hfind.
    split; [reflexivity|]. split.
    + intros E. injection E as E. apply bool_decide_eq_true_1 in E.
      split; [exact Hfind|]. intros pk. now rewrite E.
    + intros [_ E]. unfold Return. f_equal.
      apply bool_decide_eq_true_2. now apply map_eq.
Qed.

(** ** Key derivation *)

(** *** Lemmas on the two library functions *)

Lemma hex_digit_not_space c d : hex_digit c = Some d -> is_space c = false.
Proof.
  destruct c as [[] [] [] [] [] [] [] []]; vm_compute; congruence.
Qed.

(** Induction two characters at a time. *)
Lemma fromhex_hex_string_pair s :
  (is_hex_string s = true -> fromhex s = Some (hex_decode s))
  /\ (forall c, is_hex_string (String c s) = true ->
        fromhex (String c s) = Some (hex_decode (String c s))).
Proof.
  induction s as [|c' s [IH1 IH2]].
  - split; [reflexivity|]. intros c H. discriminate.
  - split; [apply IH2|].
    intros c H. cbn [is_hex_string] in H. cbn [fromhex hex_decode].
    destruct (hex_digit c) as [top|] eqn:Hc; [|discriminate].
    destruct (hex_digit c') as [bot|] eqn:Hc'; [|discriminate].
    rewrite (hex_digit_not_space _ _ Hc).
    now rewrite (IH1 H).
Qed.

Lemma fromhex_hex_string s :
  is_hex_string s = true -> fromhex s = Some (hex_decode s).
Proof. apply fromhex_hex_string_pair. Qed.

Lemma hex_decode_length s :
  is_hex_string s = true ->
  (2 * length (hex_decode s))%nat = String.length s.
Proof.
  assert (H : (is_hex_string s = true ->
               (2 * length (hex_decode s))%nat = String.length s)
              /\ (forall c, is_hex_string (String c s) = true ->
                    (2 * length (hex_decode (String c s)))%nat
                    = String.length (String c s))).
  { induction s as [|c' s [IH1 IH2]].
    - split; [reflexivity|]. intros c H. discriminate.
    - split; [apply IH2|].
      intros c H. cbn [is_hex_string] in H. cbn [hex_decode String.length].
      destruct (hex_digit c); [|discriminate].
      destruct (hex_digit c'); [|discriminate].
      specialize (IH1 H). cbn [length]. lia. }
  apply H.
Qed.

(** The bit length of [i] is enough fuel: the loop stops on [i = 0], and
    more fuel does not change what it returns. *)
Lemma size_nat_div58 i :
  i <> 0%N -> (N.size_nat (i / 58) < N.size_nat i)%nat.
Proof.
  intros Hi. destruct i as [|p]; [congruence|].
  destruct (N.pos p / 58)%N as [|q] eqn:Hq.
  - simpl. destruct p; simpl; lia.
  - change (Pos.size_nat q < Pos.size_nat p)%nat.
    assert (Hp : Z.pos p < 2 ^ Z.of_nat (Pos.size_nat p))
      by (apply Zpower2_Psize; lia).
    destruct (Pos.size_nat p) as [|n] eqn:Hn; [destruct p; discriminate|].
    enough (Pos.size_nat q <= n)%nat by lia.
    apply Zpower2_Psize.
    assert (Hq' : Z.pos q = Z.pos p / 58).
    { change (Z.pos q) with (Z.of_N (N.pos q)). rewrite <- Hq.
      now rewrite N2Z.inj_div. }
    rewrite Hq'. rewrite Nat2Z.inj_succ, Z.pow_succ_r in Hp by lia.
    apply Z.div_lt_upper_bound; lia.
Qed.

Lemma b58encode_int_loop_fuel f1 : forall f2 i acc,
  (N.size_nat i <= f1)%nat -> (N.size_nat i <= f2)%nat ->
  b58encode_int_loop f1 i acc = b58encode_int_loop f2 i acc.
Proof.
  induction f1 as [|f1 IH]; intros f2 i acc H1 H2.
  - destruct i as [|p]; [|destruct p; simpl in H1; lia].
    destruct f2; reflexivity.
  - destruct f2 as [|f2].
    + destruct i as [|p]; [reflexivity|destruct p; simpl in H2; lia].
    + cbn [b58encode_int_loop]. destruct (N.eqb_spec i 0) as [|Hi]; [reflexivity|].
      pose proof (size_nat_div58 i Hi). apply IH; lia.
Qed.

Lemma b58encode_int_unfold i :
  b58encode_int i
  = if (i =? 0)%N then EmptyString
    else b58encode_int (i / 58) +:+ String (alphabet_at (i mod 58)%N) EmptyString.
Proof.
  assert (Happ : forall x a acc,
    x +:+ String a acc = (x +:+ String a EmptyString) +:+ acc).
  { induction x as [|c x IHx]; intros a acc; [reflexivity|].
    change (String c (x +:+ String a acc)
            = String c ((x +:+ String a EmptyString) +:+ acc)).
    now rewrite IHx. }
  assert (Hacc : forall f j acc,
    b58encode_int_loop f j acc = b58encode_int_loop f j EmptyString +:+ acc).
  { induction f as [|f IH]; intros j acc; cbn [b58encode_int_loop].
    - reflexivity.
    - destruct (j =? 0)%N; [reflexivity|].
      rewrite IH. rewrite (IH _ (String _ EmptyString)). apply Happ. }
  unfold b58encode_int.
  destruct (N.eqb_spec i 0) as [->|Hi]; [reflexivity|].
  destruct (N.size_nat i) as [|n] eqn:Hn.
  - destruct i as [|p]; [congruence|destruct p; discriminate].
  - cbn [b58encode_int_loop]. destruct (N.eqb_spec i 0); [congruence|].
    rewrite Hacc. f_equal.
    pose proof (size_nat_div58 i Hi). apply b58encode_int_loop_fuel; lia.
Qed.

(** C8, as the code has it.  For every election id made of an even number
    of hexadecimal digits, [to_public_key] returns the base58 encoding of
    the hex-decoded id (one byte per two digits); it is a function of the id
    alone; and for every id that [bytes.fromhex] cannot decode it fails with
    [ValueError], never with [InvalidElectionId]. *)
Theorem to_public_key_hex_base58 (election_id : string) :
  (is_hex_string election_id = true ->
     to_public_key election_id = Return (b58encode (hex_decode election_id))
     /\ (2 * length (hex_decode election_id))%nat = String.length election_id)
  /\ (fromhex election_id = None ->
        to_public_key election_id = Raise ValueError)
  /\ (forall e, to_public_key election_id = Raise e -> e = ValueError).
Proof.
  unfold to_public_key. repeat split.
  - now rewrite (fromhex_hex_string _ H).
  - now apply hex_decode_length.
  - intros ->. reflexivity.
  - intros e. destruct (fromhex election_id); [discriminate|].
    intros [= <-]. reflexivity.
Qed.

(** *** Facts on binary64 rounding *)

Lemma digits2_pos_bounds (p : positive) :
  2 ^ (Z.pos (digits2_pos p) - 1) <= Z.pos p < 2 ^ Z.pos (digits2_pos p).
Proof.
  induction p as [p IH|p IH|]; cbn [digits2_pos].
  - rewrite Pos2Z.inj_succ.
    replace (Z.succ (Z.pos (digits2_pos p)) - 1)
      with (Z.succ (Z.pos (digits2_pos p) - 1)) by lia.
    rewrite !Z.pow_succ_r by lia. lia.
  - rewrite Pos2Z.inj_succ.
    replace (Z.succ (Z.pos (digits2_pos p)) - 1)
      with (Z.succ (Z.pos (digits2_pos p) - 1)) by lia.
    rewrite !Z.pow_succ_r by lia. lia.
  - simpl. lia.
Qed.

Lemma digits2_pos_unique (p : positive) (k : Z) :
  2 ^ (k - 1) <= Z.pos p < 2 ^ k -> Z.pos (digits2_pos p) = k.
Proof.
  intros [Hlo Hhi]. pose proof (digits2_pos_bounds p) as [Hlo' Hhi'].
  assert (0 < k).
  { destruct (Z.ltb_spec 0 k) as [|Hk]; [assumption|].
    destruct (Z.eq_dec k 0) as [->|]; [simpl in Hhi; lia|].
    rewrite Z.pow_neg_r in Hhi by lia. lia. }
  set (d := Z.pos (digits2_pos p)) in *.
  destruct (Z.lt_trichotomy d k) as [Hlt|[Heq|Hgt]]; [|exact Heq|].
  - assert (2 ^ d <= 2 ^ (k - 1)) by (apply Z.pow_le_mono_r; lia). lia.
  - assert (2 ^ k <= 2 ^ (d - 1)) by (apply Z.pow_le_mono_r; lia). lia.
Qed.

Lemma iter_xO_pow2 (m n : positive) :
  Z.pos (Pos.iter xO m n) = Z.pos m * 2 ^ Z.pos n.
Proof.
  induction n as [|n IH] using Pos.peano_ind.
  - simpl. lia.
  - rewrite Pos.iter_succ, Pos2Z.inj_succ, Z.pow_succ_r by lia.
    rewrite Pos2Z.inj_xO, IH. lia.
Qed.

Lemma shr_1_div2 (mrs : shr_record) :
  0 <= shr_m mrs -> shr_m (shr_1 mrs) = shr_m mrs / 2.
Proof.
  destruct mrs as [m r s]. cbn [shr_m]. intros Hm.
  destruct m as [|[p|p|]|p]; cbn [shr_1 shr_m]; try lia.
  - reflexivity.
  - apply Z.div_unique with (r := 1); lia.
  - apply Z.div_unique with (r := 0); lia.
  - reflexivity.
Qed.

Lemma pow2_xO (n : positive) : 2 ^ Z.pos n~0 = 2 ^ Z.pos n * 2 ^ Z.pos n.
Proof. rewrite <- Z.pow_add_r by lia. f_equal. lia. Qed.

Lemma pow2_xI (n : positive) : 2 ^ Z.pos n~1 = 2 * (2 ^ Z.pos n * 2 ^ Z.pos n).
Proof.
  rewrite <- Z.pow_add_r, <- Z.pow_succ_r by lia. f_equal. lia.
Qed.

Lemma iter_pos_shr_1_div (n : positive) : forall mrs,
  0 <= shr_m mrs ->
  shr_m (SpecFloat.iter_pos shr_1 n mrs) = shr_m mrs / 2 ^ Z.pos n.
Proof.
  assert (Hstep : forall mrs, 0 <= shr_m mrs -> 0 <= shr_m (shr_1 mrs)).
  { intros mrs H. rewrite shr_1_div2 by exact H. apply Z.div_pos; lia. }
  induction n as [n IH|n IH|]; intros mrs Hm; cbn [SpecFloat.iter_pos].
  - assert (H1 := Hstep _ Hm).
    assert (H2 : 0 <= shr_m (SpecFloat.iter_pos shr_1 n (shr_1 mrs))).
    { rewrite IH by exact H1. apply Z.div_pos; lia. }
    rewrite IH by exact H2. rewrite IH by exact H1.
    rewrite shr_1_div2 by exact Hm.
    rewrite !Z.div_div by lia. now rewrite pow2_xI.
  - assert (H2 : 0 <= shr_m (SpecFloat.iter_pos shr_1 n mrs)).
    { rewrite IH by exact Hm. apply Z.div_pos; lia. }
    rewrite IH by exact H2. rewrite IH by exact Hm.
    rewrite Z.div_div by lia. now rewrite pow2_xO.
  - rewrite shr_1_div2 by exact Hm. reflexivity.
Qed.

Lemma round_nearest_even_bounds (m : Z) (l : location) :
  m <= round_nearest_even m l <= m + 1.
Proof.
  destruct l as [|[]]; cbn [round_nearest_even]; try lia.
  destruct (Z.even m); lia.
Qed.

(** A mantissa of 53 bits with an exponent in range is kept as it is. *)
Lemma binary_round_aux_canonical (m : positive) (e : Z) :
  Z.pos (digits2_pos m) = 53 -> -1074 <= e <= 971 ->
  binary_round_aux prec emax false (Z.pos m) e loc_Exact = S754_finite false m e.
Proof.
  intros Hd He.
  assert (Hs : shr_fexp prec emax (Z.pos m) e loc_Exact
               = ({| shr_m := Z.pos m; shr_r := false; shr_s := false |}, e)).
  { unfold shr_fexp.
    replace (fexp prec emax (Zdigits2 (Z.pos m) + e) - e) with 0; [reflexivity|].
    unfold fexp, emin, Zdigits2, prec, emax. rewrite Hd. lia. }
  unfold binary_round_aux. rewrite Hs.
  cbn [shr_m loc_of_shr_record round_nearest_even]. rewrite Hs. cbn [shr_m].
  replace (e <=? emax - prec) with true; [reflexivity|].
  symmetry. apply Z.leb_le. unfold emax, prec. lia.
Qed.

(** The conversion of a positive int below [2^52] is exact: the int is
    shifted left until it has 53 bits. *)
Lemma float_of_int_exact (T : positive) :
  let d := Z.pos (digits2_pos T) in
  d < 53 ->
  exists mT, float_of_int (Z.pos T) = Return (S754_finite false mT (d - 53))
             /\ Z.pos mT = Z.pos T * 2 ^ (53 - d)
             /\ Z.pos (digits2_pos mT) = 53.
Proof.
  intros d Hd.
  pose proof (digits2_pos_bounds T) as HT. fold d in HT.
  assert (Hd0 : 0 < d) by (unfold d; lia).
  destruct (53 - d) as [|a|a] eqn:Ha; try lia.
  exists (Pos.iter xO T a).
  assert (Hm : Z.pos (Pos.iter xO T a) = Z.pos T * 2 ^ Z.pos a)
    by apply iter_xO_pow2.
  assert (Hdig : Z.pos (digits2_pos (Pos.iter xO T a)) = 53).
  { apply digits2_pos_unique. rewrite Hm.
    assert (Hpa : 0 < 2 ^ Z.pos a) by (apply Z.pow_pos_nonneg; lia).
    assert (E1 : 2 ^ (53 - 1) = 2 ^ (d - 1) * 2 ^ Z.pos a)
      by (rewrite <- Z.pow_add_r by lia; f_equal; lia).
    assert (E2 : 2 ^ 53 = 2 ^ d * 2 ^ Z.pos a)
      by (rewrite <- Z.pow_add_r by lia; f_equal; lia).
    rewrite E1, E2. split.
    - apply Z.mul_le_mono_nonneg_r; lia.
    - apply Z.mul_lt_mono_pos_r; lia. }
  split; [|split; [exact Hm|exact Hdig]].
  unfold float_of_int, binary_normalize, binary_round.
  assert (Hal : shl_align T 0 (fexp prec emax (Z.pos (digits2_pos T) + 0))
                = (Pos.iter xO T a, d - 53)).
  { unfold shl_align.
    replace (fexp prec emax (Z.pos (digits2_pos T) + 0)) with (d - 53)
      by (unfold fexp, emin, prec, emax; fold d; lia).
    replace (d - 53 - 0) with (Z.neg a) by lia. reflexivity. }
  rewrite Hal. rewrite binary_round_aux_canonical by (exact Hdig || lia).
  reflexivity.
Qed.

(** Rounding a product that is too wide by [n] bits: the result is finite,
    and its mantissa is the truncated mantissa or its successor. *)
Lemma binary_round_aux_wide (P : positive) (e n : Z) :
  n = Z.pos (digits2_pos P) - 53 -> 0 < n ->
  -1074 <= e + n -> e + n < 971 ->
  exists m E,
    binary_round_aux prec emax false (Z.pos P) e loc_Exact = S754_finite false m E
    /\ (E = e + n \/ E = e + n + 1)
    /\ Z.pos P / 2 ^ n <= Z.pos m * 2 ^ (E - (e + n)) <= Z.pos P / 2 ^ n + 1.
Proof.
  intros Hn Hn0 Hlo Hhi.
  pose proof (digits2_pos_bounds P) as HP.
  replace (Z.pos (digits2_pos P)) with (n + 53) in HP by lia.
  destruct n as [|np|np] eqn:En; try lia. rewrite <- En in *.
  set (mrs' := SpecFloat.iter_pos shr_1 np
                 {| shr_m := Z.pos P; shr_r := false; shr_s := false |}).
  assert (Hs1 : shr_fexp prec emax (Z.pos P) e loc_Exact = (mrs', e + n)).
  { unfold shr_fexp.
    replace (fexp prec emax (Zdigits2 (Z.pos P) + e) - e) with (Z.pos np)
      by (unfold fexp, emin, Zdigits2, prec, emax; lia).
    rewrite En. reflexivity. }
  assert (Hm' : shr_m mrs' = Z.pos P / 2 ^ n).
  { unfold mrs'. rewrite iter_pos_shr_1_div by (cbn; lia). now rewrite En. }
  assert (Hpow : 0 < 2 ^ n) by (apply Z.pow_pos_nonneg; lia).
  assert (Hrange : 2 ^ 52 <= shr_m mrs' < 2 ^ 53).
  { rewrite Hm'.
    replace (n + 53 - 1) with (52 + n) in HP by lia.
    replace (n + 53) with (53 + n) in HP by lia.
    rewrite !Z.pow_add_r in HP by lia. split.
    - apply Z.div_le_lower_bound; lia.
    - apply Z.div_lt_upper_bound; lia. }
  pose proof (round_nearest_even_bounds (shr_m mrs') (loc_of_shr_record mrs')) as HR.
  set (R := round_nearest_even (shr_m mrs') (loc_of_shr_record mrs')) in *.
  unfold binary_round_aux. rewrite Hs1. fold R.
  destruct R as [|r|r] eqn:ER; try lia.
  destruct (Z.ltb_spec (Z.pos r) (2 ^ 53)) as [Hlt|Hge].
  - (* the rounded mantissa still has 53 bits *)
    assert (Hdig : Z.pos (digits2_pos r) = 53)
      by (apply digits2_pos_unique; lia).
    assert (Hs2 : shr_fexp prec emax (Z.pos r) (e + n) loc_Exact
                  = ({| shr_m := Z.pos r; shr_r := false; shr_s := false |}, e + n)).
    { unfold shr_fexp.
      replace (fexp prec emax (Zdigits2 (Z.pos r) + (e + n)) - (e + n)) with 0;
        [reflexivity|].
      unfold fexp, emin, Zdigits2, prec, emax. rewrite Hdig. lia. }
    rewrite Hs2. cbn [shr_m].
    replace (e + n <=? emax - prec) with true
      by (symmetry; apply Z.leb_le; unfold emax, prec; lia).
    exists r, (e + n). split; [reflexivity|]. split; [now left|].
    rewrite Z.sub_diag, Z.pow_0_r, Z.mul_1_r, <- Hm'. exact HR.
  - (* the rounding carried into a 54th bit *)
    assert (Hr : Z.pos r = 2 ^ 53) by lia.
    assert (Hr' : r = 9007199254740992%positive) by (apply Pos2Z.inj; exact Hr).
    subst r.
    assert (Hs2 : shr_fexp prec emax (Z.pos 9007199254740992) (e + n) loc_Exact
                  = ({| shr_m := 4503599627370496; shr_r := false; shr_s := false |},
                     e + n + 1)).
    { unfold shr_fexp.
      replace (fexp prec emax (Zdigits2 (Z.pos 9007199254740992) + (e + n)) - (e + n))
        with 1; [reflexivity|].
      change (Zdigits2 (Z.pos 9007199254740992)) with 54.
      unfold fexp, emin, prec, emax. lia. }
    rewrite Hs2. cbn [shr_m].
    replace (e + n + 1 <=? emax - prec) with true
      by (symmetry; apply Z.leb_le; unfold emax, prec; lia).
    exists 4503599627370496%positive, (e + n + 1).
    split; [reflexivity|]. split; [now right|].
    replace (e + n + 1 - (e + n)) with 1 by lia.
    change (Z.pos 4503599627370496 * 2 ^ 1) with (2 ^ 53).
    rewrite <- Hm'. lia.
Qed.

Lemma two_thirds_value :
  two_thirds = S754_finite false 6004799503160661 (-53).
Proof. vm_compute. reflexivity. Qed.

(** Below [2^50] the double [(2/3) * T] separates the integers exactly as
    the rational [2T/3] does. *)
Lemma threshold_separates (T c : Z) :
  0 <= T < 2 ^ 50 ->
  exists x, float_mul_int two_thirds T = Return x
            /\ int_lt_float c x = (3 * c <? 2 * T)
            /\ int_ge_float c x = (2 * T <=? 3 * c).
Proof.
  intros [HT0 HT].
  destruct T as [|t|t]; try lia.
  - (* no voting power at all *)
    exists (S754_zero false). split; [reflexivity|].
    unfold int_lt_float, int_ge_float, int_compare_float.
    destruct (Z.compare_spec c 0), (Z.ltb_spec (3 * c) (2 * 0)),
             (Z.leb_spec (2 * 0) (3 * c)); try reflexivity; lia.
  - pose proof (digits2_pos_bounds t) as Ht.
    set (d := Z.pos (digits2_pos t)) in *.
    assert (Hd0 : 0 < d) by (unfold d; lia).
    assert (Hd : d <= 50).
    { destruct (Z.leb_spec d 50) as [|Hgt]; [assumption|].
      assert (2 ^ 50 <= 2 ^ (d - 1)) by (apply Z.pow_le_mono_r; lia). lia. }
    destruct (float_of_int_exact t) as (mT & HmT & HmTv & HmTd); [fold d; lia|].
    fold d in HmT, HmTv.
    unfold float_mul_int. rewrite HmT, two_thirds_value.
    unfold Return. cbn [SFmul xorb].
    set (md := 6004799503160661%positive).
    set (P := (md * mT)%positive).
    set (A := 2 ^ (53 - d)) in *.
    assert (HA : 0 < A) by (apply Z.pow_pos_nonneg; lia).
    assert (HdA : 2 ^ d * A = 2 ^ 53)
      by (unfold A; rewrite <- Z.pow_add_r by lia; f_equal; lia).
    assert (HP : Z.pos P = 6004799503160661 * (Z.pos t * A))
      by (unfold P, md; rewrite Pos2Z.inj_mul, HmTv; reflexivity).
    pose proof (digits2_pos_bounds mT) as HmTb. rewrite HmTd in HmTb.
    assert (HPr : 2 ^ 104 <= Z.pos P < 2 ^ 106).
    { unfold P, md. rewrite Pos2Z.inj_mul.
      change (2 ^ 104) with (2 ^ 52 * 2 ^ (53 - 1)).
      change (2 ^ 106) with (2 ^ 53 * 2 ^ 53). nia. }
    pose proof (digits2_pos_bounds P) as HPd.
    set (dP := Z.pos (digits2_pos P)) in *.
    assert (HdP : 105 <= dP <= 106).
    { split.
      - destruct (Z.leb_spec 105 dP) as [|Hlt]; [assumption|].
        assert (2 ^ dP <= 2 ^ 104) by (apply Z.pow_le_mono_r; lia). lia.
      - destruct (Z.leb_spec dP 106) as [|Hgt]; [assumption|].
        assert (2 ^ 106 <= 2 ^ (dP - 1)) by (apply Z.pow_le_mono_r; lia). lia. }
    set (n := dP - 53).
    destruct (binary_round_aux_wide P (-53 + (d - 53)) n)
      as (m & E & Hround & HE & HR); try (unfold n; fold dP; lia).
    rewrite Hround. exists (S754_finite false m E). split; [reflexivity|].
    set (e := -53 + (d - 53)) in *.
    assert (HEneg : E < 0) by (unfold e, n in *; lia).
    (* the comparison the code makes, scaled to the unit in the last place *)
    set (k := E - (e + n)) in *.
    set (G := - (e + n)).
    assert (Hk : 0 <= k <= 1) by (unfold k; lia).
    assert (HG : 0 < G) by (unfold G, e, n; lia).
    assert (H2k : 0 < 2 ^ k) by (apply Z.pow_pos_nonneg; lia).
    assert (H2n : 0 < 2 ^ n) by (apply Z.pow_pos_nonneg; unfold n; lia).
    assert (HGE : 2 ^ (- E) * 2 ^ k = 2 ^ G)
      by (rewrite <- Z.pow_add_r by lia; f_equal; unfold G, k; lia).
    assert (HGn : 2 ^ n * 2 ^ G = 2 ^ 53 * A).
    { unfold A. rewrite <- !Z.pow_add_r by (unfold n; lia).
      f_equal. unfold G, e. lia. }
    assert (Hn53 : 2 ^ n <= 2 ^ 53) by (apply Z.pow_le_mono_r; unfold n; lia).
    set (Q := Z.pos P / 2 ^ n) in *.
    assert (HQ : 2 ^ n * Q <= Z.pos P < 2 ^ n * Q + 2 ^ n).
    { unfold Q. pose proof (Z.mul_div_le (Z.pos P) (2 ^ n) H2n).
      pose proof (Z.mul_succ_div_gt (Z.pos P) (2 ^ n) H2n). lia. }
    assert (Hcmp : (c * 2 ^ (- E) ?= Z.pos m)
                   = (c * 2 ^ G ?= Z.pos m * 2 ^ k)).
    { rewrite <- HGE, Z.mul_assoc.
      apply Zmult_compare_compat_r. lia. }
    unfold int_lt_float, int_ge_float, int_compare_float.
    cbn [cond_Zopp].
    replace (0 <=? E) with false by (symmetry; apply Z.leb_gt; exact HEneg).
    rewrite Hcmp.
    set (R := Z.pos m * 2 ^ k) in *.
    set (X := Z.pos t * A) in *.
    assert (HX : 0 < X) by (unfold X; lia).
    destruct (Z.ltb_spec (3 * c) (2 * Z.pos t)) as [Hlt|Hge].
    + (* 3c < 2T: the double lies above c *)
      replace (2 * Z.pos t <=? 3 * c) with false by (symmetry; apply Z.leb_gt; lia).
      assert (Hlow : c * 2 ^ G < R).
      { enough (c * 2 ^ G + 1 <= Q) by lia.
        apply Z.div_le_lower_bound; [exact H2n|].
        assert (H1 : 3 * (c * A) <= 2 * X - A) by (unfold X; nia).
        assert (H2 : 2 ^ n <= 2 * X).
        { apply Z.le_trans with (2 ^ 53); [exact Hn53|].
          rewrite <- HdA. unfold X. nia. }
        assert (H3 : 7 * X <= 2 ^ 53 * A) by (unfold X; nia).
        replace (2 ^ n * (c * 2 ^ G + 1)) with (c * (2 ^ n * 2 ^ G) + 2 ^ n) by ring.
        rewrite HGn, HP. fold X.
        replace (c * (2 ^ 53 * A)) with (2 ^ 53 * (c * A)) by ring.
        lia. }
      apply Z.compare_lt_iff in Hlow. now rewrite Hlow.
    + (* 2T <= 3c: the double does not exceed c *)
      replace (2 * Z.pos t <=? 3 * c) with true by (symmetry; apply Z.leb_le; lia).
      assert (Hhigh : R <= c * 2 ^ G).
      { enough (Q < c * 2 ^ G) by lia.
        apply Z.mul_lt_mono_pos_l with (p := 2 ^ n); [exact H2n|].
        apply Z.le_lt_trans with (Z.pos P); [apply HQ|].
        replace (2 ^ n * (c * 2 ^ G)) with (c * (2 ^ n * 2 ^ G)) by ring.
        rewrite HGn, HP. fold X.
        assert (H1 : 2 * X <= 3 * (c * A)) by (unfold X; nia).
        replace (c * (2 ^ 53 * A)) with (2 ^ 53 * (c * A)) by ring.
        lia. }
      destruct (Z.compare_spec (c * 2 ^ G) R); try reflexivity; lia.
Qed.

(** *** The monad's equations *)

Lemma bind_reads {A B} (f : Chain.t -> A) (k : A -> M B) b :
  bind (reads f) k b = k (f b) b.
Proof. reflexivity. Qed.

Lemma bind_ret {A B} (a : A) (k : A -> M B) b : bind (ret a) k b = k a b.
Proof. reflexivity. Qed.

Lemma bind_lift_Return {A B} (a : A) (k : A -> M B) b :
  bind (lift (Return a)) k b = k a b.
Proof. reflexivity. Qed.

Lemma bind_lift_Raise {A B} (e : exn) (k : A -> M B) b :
  bind (lift (Raise e)) k b = (Raise e, b).
Proof. reflexivity. Qed.

Lemma bind_assoc {A B C} (m : M A) (k : A -> M B) (k' : B -> M C) b :
  bind (bind m k) k' b = bind m (fun a => bind (k a) k') b.
Proof. unfold bind. destruct (m b) as [[e|a] b']; reflexivity. Qed.

Lemma bind_ext {A B} (m : M A) (k k' : A -> M B) b :
  (forall a b', k a b' = k' a b') -> bind m k b = bind m k' b.
Proof. intros H. unfold bind. destruct (m b) as [[e|a] b']; auto. Qed.

Lemma bind_raised {A B} (m : M A) (k : A -> M B) b e b' :
  m b = (Raise e, b') -> bind m k b = (Raise e, b').
Proof. intros H. unfold bind. now rewrite H. Qed.

Lemma bind_returned {A B} (m : M A) (k : A -> M B) b a b' :
  m b = (Return a, b') -> bind m k b = k a b'.
Proof. intros H. unfold bind. now rewrite H. Qed.

(** *** [validate] only reads *)

(** C10. [Election.validate] performs no write: whether it raises or
    returns, the chain it hands back is the chain it was given, and when it
    returns, the value is the election itself. *)
Theorem validate_read_only (self : Transaction)
    (current_transactions : list Transaction) (bigchain : Chain.t) :
  snd (validate self current_transactions bigchain) = bigchain
  /\ (forall election,
        fst (validate self current_transactions bigchain) = Return election ->
        election = self)
  /\ (forall e,
        fst (validate self current_transactions bigchain) = Raise e ->
        e = DuplicateTransaction \/ e = InvalidSignature
        \/ e = MultipleInputsError \/ e = InvalidProposer
        \/ e = UnequalValidatorSet \/ e = ValueError).
Proof.
  clear on_approval ValidatorUpdate.
  unfold validate, bind, reads, raise, ret, lift, Return, Raise.
  destruct (Chain.is_committed bigchain (id self) || existsb _ _);
    [cbn; intuition congruence|].
  destruct (negb (inputs_valid self [])); [cbn; intuition congruence|].
  destruct (inputs self) as [|input [|input' ins]]; [cbn; intuition congruence| |cbn; intuition congruence].
  destruct (owners_before input) as [|key [|key' keys]]; [cbn; intuition congruence| |cbn; intuition congruence].
  destruct (negb (bool_decide _)); [cbn; intuition congruence|].
  destruct (is_same_topology _ _) as [e|[|]] eqn:Htopo; cbn.
  - repeat split; try congruence. intros e' [= <-].
    apply is_same_topology_loop_raises in Htopo. subst e. auto 10.
  - intuition congruence.
  - intuition congruence.
Qed.

(** ** [has_concluded] *)

(** What [has_concluded] returns once the election key is derived: the
    steps of the function, with the chain handed back untouched. *)
Lemma has_concluded_unfold self current_votes bigchain election_pk :
  to_public_key (id self) = Return election_pk ->
  has_concluded self current_votes bigchain
  = if has_validator_set_changed self bigchain then (Return false, bigchain)
    else match float_mul_int two_thirds (total_votes bigchain) with
         | inl e => (Raise e, bigchain)
         | inr threshold =>
             (Return
                (int_lt_float (get_commited_votes self election_pk bigchain) threshold
                 && int_ge_float (get_commited_votes self election_pk bigchain
                                  + count_votes election_pk current_votes) threshold),
              bigchain)
         end.
Proof.
  intros Hpk. unfold has_concluded. rewrite Hpk, bind_lift_Return, !bind_reads.
  destruct (has_validator_set_changed self bigchain); [reflexivity|].
  rewrite bind_reads. fold (total_votes bigchain).
  destruct (float_mul_int two_thirds (total_votes bigchain)) as [e|x].
  - reflexivity.
  - rewrite bind_lift_Return. destruct (_ && _); reflexivity.
Qed.

Lemma has_concluded_read_only self current_votes :
  read_only (has_concluded self current_votes).
Proof.
  intros bigchain. destruct (to_public_key (id self)) as [e|pk] eqn:Hpk.
  - unfold has_concluded. rewrite Hpk. reflexivity.
  - rewrite (has_concluded_unfold _ _ _ _ Hpk).
    destruct (has_validator_set_changed self bigchain); [reflexivity|].
    destruct (float_mul_int _ _); reflexivity.
Qed.

(** Once a tally is at or above a double, no larger tally is below it. *)
Lemma int_ge_float_not_lt (a b : Z) (x : spec_float) :
  int_ge_float a x = true -> a <= b -> int_lt_float b x = false.
Proof.
  unfold int_ge_float, int_lt_float, int_compare_float.
  destruct x as [s|s| |s m e]; intros Hge Hab.
  - destruct (Z.compare_spec a 0); try discriminate;
      destruct (Z.compare_spec b 0); try reflexivity; lia.
  - destruct s; [reflexivity|discriminate].
  - discriminate.
  - destruct (Z.leb_spec 0 e) as [He|He].
    + destruct (Z.compare_spec a (cond_Zopp s (Z.pos m) * 2 ^ e));
        try discriminate;
        destruct (Z.compare_spec b (cond_Zopp s (Z.pos m) * 2 ^ e));
        try reflexivity; lia.
    + assert (Hp : 0 < 2 ^ (- e)) by (apply Z.pow_pos_nonneg; lia).
      assert (a * 2 ^ (- e) <= b * 2 ^ (- e))
        by (apply Z.mul_le_mono_nonneg_r; lia).
      destruct (Z.compare_spec (a * 2 ^ (- e)) (cond_Zopp s (Z.pos m)));
        try discriminate;
        destruct (Z.compare_spec (b * 2 ^ (- e)) (cond_Zopp s (Z.pos m)));
        try reflexivity; lia.
Qed.

(** Below [2^50] units of voting power the doubles decide the supermajority
    as exact integer arithmetic does. *)
Theorem has_concluded_exact_below_2_50 (self : Transaction)
    (current_votes : list Transaction) (bigchain : Chain.t) (election_pk : string) :
  to_public_key (id self) = Return election_pk ->
  has_validator_set_changed self bigchain = false ->
  0 <= total_votes bigchain < 2 ^ 50 ->
  let committed := get_commited_votes self election_pk bigchain in
  let pending := count_votes election_pk current_votes in
  has_concluded self current_votes bigchain
  = (Return ((3 * committed <? 2 * total_votes bigchain)
             && (2 * total_votes bigchain <=? 3 * (committed + pending))),
     bigchain).
Proof.
  intros Hpk Hchanged HT committed pending. subst committed pending.
  rewrite (has_concluded_unfold _ _ _ _ Hpk), Hchanged.
  destruct (threshold_separates (total_votes bigchain)
              (get_commited_votes self election_pk bigchain) HT)
    as (x & Hx & Hlt & _).
  destruct (threshold_separates (total_votes bigchain)
              (get_commited_votes self election_pk bigchain
               + count_votes election_pk current_votes) HT)
    as (x' & Hx' & _ & Hge).
  rewrite Hx in Hx'. injection Hx' as Hxx. subst x'.
  rewrite Hx. unfold Return. now rewrite Hlt, Hge.
Qed.

(** C3. Once [has_concluded] has returned true for an election, it returns
    false on every later state of the chain in which the votes of that block
    are committed (the committed total has not gone down) and the validator
    set is unchanged or recorded as changed, whatever votes the later block
    carries, hence in particular when it carries no new vote: the left
    conjunct of the predicate is false from then on. *)
Theorem has_concluded_fires_once (self : Transaction)
    (votes later_votes : list Transaction) (bigchain later : Chain.t)
    (election_pk : string) :
  to_public_key (id self) = Return election_pk ->
  has_concluded self votes bigchain = (Return true, bigchain) ->
  get_commited_votes self election_pk bigchain + count_votes election_pk votes
    <= get_commited_votes self election_pk later ->
  (has_validator_set_changed self later = true
   \/ get_validators later None = get_validators bigchain None) ->
  has_concluded self later_votes later = (Return false, later).
Proof.
  intros Hpk Hfired Hcommitted Hsame.
  rewrite (has_concluded_unfold self votes bigchain _ Hpk) in Hfired.
  rewrite (has_concluded_unfold self later_votes later _ Hpk).
  destruct (has_validator_set_changed self later) eqn:Hlater; [reflexivity|].
  destruct Hsame as [|Hsame]; [discriminate|].
  destruct (has_validator_set_changed self bigchain); [discriminate|].
  unfold total_votes in *. rewrite Hsame.
  destruct (float_mul_int two_thirds _) as [e|x]; [discriminate|].
  injection Hfired as Hfired. apply andb_prop in Hfired as [_ Hge].
  now rewrite (int_ge_float_not_lt _ _ _ Hge Hcommitted).
Qed.

(** The driver passes over an election for which [has_concluded] is false:
    no approval hook runs and no result is stored for it. *)
Lemma approve_loop_skip new_height election votes rest validator_update bigchain :
  Chain.get_transaction bigchain (id election) = Some election ->
  has_concluded election votes bigchain = (Return false, bigchain) ->
  approve_loop new_height ((id election, votes) :: rest) validator_update bigchain
  = approve_loop new_height rest validator_update bigchain.
Proof.
  intros Hget Hfalse. cbn [approve_loop]. rewrite bind_reads, Hget.
  unfold bind at 1. now rewrite Hfalse.
Qed.

(** C4. For an election included at height [h], when the latest recorded
    validator change has a height above [h], [has_concluded] returns false
    whatever the committed and pending votes are, [get_status] is
    Inconclusive, or Concluded when a result was already stored, and the
    per-block driver passes over the election: new votes store no result. *)
Theorem changed_validator_set_never_concludes (self : Transaction)
    (bigchain : Chain.t) (h : Z) (heights : list Z) (latest_change : ValidatorChange)
    (election_pk : string) :
  to_public_key (id self) = Return election_pk ->
  Chain.get_block_containing_tx bigchain (id self) = h :: heights ->
  get_validator_change bigchain = Some latest_change ->
  h < change_height latest_change ->
  (forall current_votes,
     has_concluded self current_votes bigchain = (Return false, bigchain))
  /\ get_status self bigchain
     = match get_election (id self) bigchain with
       | Some _ => CONCLUDED
       | None => INCONCLUSIVE
       end
  /\ (forall new_height votes rest validator_update,
        Chain.get_transaction bigchain (id self) = Some self ->
        approve_loop new_height ((id self, votes) :: rest) validator_update bigchain
        = approve_loop new_height rest validator_update bigchain).
Proof.
  intros Hpk Hblock Hchange Hlt.
  assert (Hchanged : has_validator_set_changed self bigchain = true).
  { unfold has_validator_set_changed. rewrite Hchange, Hblock.
    now apply Z.ltb_lt. }
  assert (Hfalse : forall current_votes,
            has_concluded self current_votes bigchain = (Return false, bigchain)).
  { intros current_votes.
    now rewrite (has_concluded_unfold _ _ _ _ Hpk), Hchanged. }
  split; [exact Hfalse|]. split.
  - unfold get_status. now rewrite Hchanged.
  - intros new_height votes rest validator_update Hget.
    now apply approve_loop_skip.
Qed.

(** ** The approval driver *)

Lemma default_last_cons {A} (d x : A) (l : list A) :
  default d (last (x :: l)) = default x (last l).
Proof.
  revert d x. induction l as [|y l IH]; intros d x; [reflexivity|].
  rewrite last_cons_cons. now rewrite (IH d y), (IH x y).
Qed.

(** The variable [validator_update] holds, at the end of the loop, the
    update of the last concluded election, or its initial value. *)
Lemma approve_loop_trace new_height elections : forall validator_update bigchain,
  approve_loop new_height elections validator_update bigchain
  = bind (approve_trace new_height elections)
         (fun updates => ret (default validator_update (last updates))) bigchain.
Proof.
  induction elections as [|[election_id votes] rest IH];
    intros validator_update bigchain.
  - reflexivity.
  - cbn [approve_loop approve_trace]. rewrite bind_assoc, !bind_reads.
    destruct (Chain.get_transaction bigchain election_id) as [election|];
      [|apply IH].
    rewrite bind_assoc. apply bind_ext. intros concluded b1.
    destruct concluded; cbn [negb]; [|apply IH].
    rewrite bind_assoc. apply bind_ext. intros update b2.
    rewrite bind_assoc. apply bind_ext. intros _ b3.
    rewrite IH, bind_assoc. apply bind_ext. intros updates b4.
    rewrite bind_ret. unfold ret. now rewrite default_last_cons.
Qed.

(** C1, as the code has it.  [approved_elections] returns one update at
    most: the one the approval hook returned for the last election, in
    processing order, that the block's votes concluded, when that update is
    not null, and the empty list otherwise; the chain is left as the
    specification's driver leaves it.  When at most one election concludes
    in the block this is the list of the non-null updates. *)
Theorem approved_elections_keeps_last_update (new_height : Z)
    (txns : list Transaction) (bigchain : Chain.t) :
  approved_elections new_height txns bigchain
  = bind (concluded_updates new_height txns)
         (fun updates => ret (last_update updates)) bigchain
  /\ (forall updates, (length (last_update updates) <= 1)%nat)
  /\ (forall updates, (length updates <= 1)%nat ->
        last_update updates = omap (fun update => update) updates).
Proof.
  split; [|split].
  - unfold approved_elections, concluded_updates.
    rewrite bind_assoc. apply bind_ext. intros elections b1.
    unfold bind at 1. rewrite approve_loop_trace. unfold bind, ret.
    destruct (approve_trace new_height elections b1) as [[e|updates] b2];
      [reflexivity|].
    unfold last_update. destruct (last updates) as [[u|]|]; reflexivity.
  - intros updates. unfold last_update.
    destruct (last updates) as [[u|]|]; cbn; lia.
  - intros [|[u|] [|u' updates]] Hlen; cbn in Hlen; try lia; reflexivity.
Qed.

(** ** More on the tally *)

Lemma Zsum_Permutation l1 l2 : l1 ≡ₚ l2 -> Zsum l1 = Zsum l2.
Proof. induction 1; simpl; lia. Qed.

Lemma txn_contribution_not_for_key pk tx :
  votes_for_key pk tx = false -> txn_contribution pk tx = 0.
Proof.
  unfold votes_for_key, is_Vote, txn_contribution. intros H.
  destruct (String.eqb_spec (operation tx) Vote_OPERATION) as [He|He].
  - rewrite bool_decide_eq_true_2 by exact He. simpl in H.
    induction (outputs tx) as [|o os IH]; [reflexivity|].
    simpl in H. apply orb_false_elim in H as [Ho Hos].
    simpl. unfold output_contribution at 1. rewrite Ho.
    rewrite IH by exact Hos. reflexivity.
  - now rewrite bool_decide_eq_false_2.
Qed.

(** The tally does not depend on the order of the transactions. *)
Theorem count_votes_permutation (pk : string) (xs ys : list Transaction) :
  xs ≡ₚ ys -> count_votes pk xs = count_votes pk ys.
Proof.
  intros H. rewrite !count_votes_unfold.
  apply Zsum_Permutation. now apply Permutation_map.
Qed.

(** Only the votes that carry an output to exactly [[pk]] matter: every
    other transaction can be dropped from the list without changing the
    tally, so the votes of one election never count for another. *)
Theorem count_votes_ignores_other_transactions (pk : string)
    (txs : list Transaction) :
  count_votes pk txs = count_votes pk (List.filter (votes_for_key pk) txs).
Proof.
  rewrite !count_votes_unfold.
  induction txs as [|tx txs IH]; [reflexivity|].
  cbn [List.filter map Zsum foldr].
  destruct (votes_for_key pk tx) eqn:Hv.
  - cbn [map Zsum foldr]. unfold Zsum in IH. now rewrite IH.
  - rewrite (txn_contribution_not_for_key _ _ Hv). unfold Zsum in IH. lia.
Qed.

(** ** More on [has_concluded] *)

Lemma float_mul_int_raises x n e :
  float_mul_int x n = Raise e -> e = OverflowError.
Proof.
  unfold float_mul_int, float_of_int, Raise, Return.
  destruct (binary_normalize prec emax n 0 false); congruence.
Qed.

(** A block that brings no vote for the election never concludes it,
    whatever the validators and the committed votes are: [has_concluded]
    returns false, or fails on a total that no double can hold. *)
Theorem has_concluded_needs_new_votes (self : Transaction)
    (current_votes : list Transaction) (bigchain : Chain.t) (election_pk : string) :
  to_public_key (id self) = Return election_pk ->
  count_votes election_pk current_votes <= 0 ->
  has_concluded self current_votes bigchain = (Return false, bigchain)
  \/ has_concluded self current_votes bigchain = (Raise OverflowError, bigchain).
Proof.
  intros Hpk Hvotes. rewrite (has_concluded_unfold _ _ _ _ Hpk).
  destruct (has_validator_set_changed self bigchain); [now left|].
  destruct (float_mul_int two_thirds (total_votes bigchain)) as [e|x] eqn:Hx.
  - right. now rewrite (float_mul_int_raises _ _ _ Hx).
  - left. do 2 f_equal.
    destruct (int_ge_float _ x) eqn:Hge; [|apply andb_false_r].
    rewrite (int_ge_float_not_lt _ (get_commited_votes self election_pk bigchain)
               _ Hge) by lia.
    reflexivity.
Qed.

(** An election whose status is Inconclusive never concludes, whatever
    votes are committed or pending. *)
Theorem inconclusive_never_concludes (self : Transaction)
    (bigchain : Chain.t) (election_pk : string) (current_votes : list Transaction) :
  to_public_key (id self) = Return election_pk ->
  get_status self bigchain = INCONCLUSIVE ->
  has_concluded self current_votes bigchain = (Return false, bigchain).
Proof.
  intros Hpk Hstatus. rewrite (has_concluded_unfold _ _ _ _ Hpk).
  unfold get_status in Hstatus.
  destruct (get_election (id self) bigchain); [discriminate|].
  destruct (has_validator_set_changed self bigchain); [reflexivity|discriminate].
Qed.

(** ** More on [validate] *)

Lemma existsb_same_id_false (self : Transaction) (txs : list Transaction) :
  existsb (fun txn => String.eqb (id txn) (id self)) txs = false
  <-> Forall (fun txn => id txn <> id self) txs.
Proof.
  induction txs as [|tx txs IH]; simpl.
  - split; [constructor|reflexivity].
  - rewrite orb_false_iff, IH, Forall_cons, String.eqb_neq. reflexivity.
Qed.

(** [validate] accepts an election exactly when its id is neither committed
    nor among the transactions validated with it, its inputs verify, it has
    one input signed by one key, that key is a validator, and the topology
    check returns true. *)
Theorem validate_accepts_iff (self : Transaction)
    (current_transactions : list Transaction) (bigchain : Chain.t) :
  validate self current_transactions bigchain = (Return self, bigchain)
  <-> Chain.is_committed bigchain (id self) = false
      /\ Forall (fun txn => id txn <> id self) current_transactions
      /\ inputs_valid self [] = true
      /\ (exists input proposer,
            inputs self = [input] /\ owners_before input = [proposer]
            /\ is_Some (get_validators bigchain None !! proposer))
      /\ is_same_topology (get_validators bigchain None) (outputs self)
         = Return true.
Proof.
  rewrite <- existsb_same_id_false.
  unfold validate, bind, reads, raise, ret, lift, Return, Raise.
  destruct (Chain.is_committed bigchain (id self)); cbn [orb].
  { split; [discriminate|]. intros [? _]. discriminate. }
  destruct (existsb _ current_transactions).
  { split; [discriminate|]. intros (_ & ? & _). discriminate. }
  destruct (inputs_valid self []); cbn [negb].
  2: { split; [discriminate|]. intros (_ & _ & ? & _). discriminate. }
  destruct (inputs self) as [|input [|input' ins]].
  { split; [discriminate|]. intros (_ & _ & _ & (? & ? & ? & _) & _). discriminate. }
  2: { split; [discriminate|]. intros (_ & _ & _ & (? & ? & ? & _) & _). discriminate. }
  destruct (owners_before input) as [|key [|key' keys]] eqn:Hkeys.
  { split; [discriminate|].
    intros (_ & _ & _ & (? & ? & [= <-] & ? & _) & _). congruence. }
  2: { split; [discriminate|].
       intros (_ & _ & _ & (? & ? & [= <-] & ? & _) & _). congruence. }
  destruct (decide (is_Some (get_validators bigchain None !! key))) as [Hin|Hout].
  - rewrite bool_decide_eq_true_2 by exact Hin. cbn [negb].
    destruct (is_same_topology _ _) as [e|[|]].
    + split; [discriminate|]. intros (_ & _ & _ & _ & ?). discriminate.
    + split; [|reflexivity]. intros _. repeat split. exists input, key. auto.
    + split; [discriminate|]. intros (_ & _ & _ & _ & ?). discriminate.
  - rewrite bool_decide_eq_false_2 by exact Hout. cbn [negb].
    split; [discriminate|].
    intros (_ & _ & _ & (? & ? & [= <-] & Hk & Hs) & _).
    rewrite Hkeys in Hk. injection Hk as <-. contradiction.
Qed.

(** A duplicate is reported before anything else is looked at: an id that
    is committed, or carried by one of the transactions validated along,
    raises [DuplicateTransaction] whatever the signatures, inputs and
    outputs are. *)
Theorem validate_duplicate_first (self : Transaction)
    (current_transactions : list Transaction) (bigchain : Chain.t) :
  Chain.is_committed bigchain (id self) = true
  \/ Exists (fun txn => id txn = id self) current_transactions ->
  validate self current_transactions bigchain
  = (Raise DuplicateTransaction, bigchain).
Proof.
  intros H. unfold validate. rewrite bind_reads.
  replace (Chain.is_committed bigchain (id self)
           || existsb (fun txn => String.eqb (id txn) (id self)) current_transactions)
    with true; [reflexivity|].
  symmetry. apply orb_true_iff. destruct H as [H|H]; [now left|right].
  apply existsb_exists. apply Exists_exists in H as (txn & Hin & Hid).
  exists txn. split; [now apply list_elem_of_In|]. now apply String.eqb_eq.
Qed.

(** ** More on the topology check and the validator map *)

Lemma fold_left_insert_foldr {A} (f : A -> string * Z) (l : list A) :
  forall m : gmap string Z,
  fold_left (fun m a => <[(f a).1 := (f a).2]> m) l m
  = foldr (fun p => <[p.1 := p.2]>) m (reverse (f <$> l)).
Proof.
  induction l as [|a l IH]; intros m; [reflexivity|].
  cbn [fold_left]. rewrite IH, fmap_cons, reverse_cons, foldr_app.
  reflexivity.
Qed.

Lemma fold_left_insert_list_to_map {A} (f : A -> string * Z) (l : list A) :
  fold_left (fun (m : gmap string Z) a => <[(f a).1 := (f a).2]> m) l ∅
  = list_to_map (reverse (f <$> l)).
Proof. apply fold_left_insert_foldr. Qed.

Lemma voters_of_list_to_map outs :
  voters_of outs = list_to_map (reverse (output_pair <$> outs)).
Proof. apply (fold_left_insert_list_to_map output_pair). Qed.

Lemma get_validators_list_to_map bigchain height :
  get_validators bigchain height
  = list_to_map (reverse (validator_entries bigchain height)).
Proof.
  unfold get_validators, validator_entries.
  apply (fold_left_insert_list_to_map
           (fun validator =>
              (decode_public_key (public_key_value validator),
               voting_power validator))).
Qed.

Lemma list_to_map_rev_NoDup (l : list (string * Z)) :
  NoDup l.*1 -> (list_to_map (reverse l) : gmap string Z) = list_to_map l.
Proof.
  intros H. apply list_to_map_proper.
  - now rewrite reverse_Permutation.
  - apply reverse_Permutation.
Qed.

Lemma sum_values_map_to_list (d : gmap string Z) :
  sum_values d = Zsum (map_to_list d).*2.
Proof.
  unfold sum_values. rewrite map_fold_foldr.
  induction (map_to_list d) as [|[k v] l IH]; [reflexivity|].
  cbn. unfold Zsum in IH. rewrite IH. lia.
Qed.

Lemma sum_values_list_to_map (l : list (string * Z)) :
  NoDup l.*1 -> sum_values (list_to_map l) = Zsum l.*2.
Proof.
  intros H. rewrite sum_values_map_to_list.
  apply Zsum_Permutation. now rewrite map_to_list_to_map.
Qed.

(** When the outputs carry one key each and no key twice, the topology
    check succeeds exactly when the (key, amount) pairs of the outputs are,
    up to order, the entries of the validator map; the amounts then add up
    to the total voting power. *)
Theorem is_same_topology_distinct_keys
    (current_topology : gmap string Z) (outs : list Output) :
  forallb single_key outs = true ->
  NoDup (output_pair <$> outs).*1 ->
  (is_same_topology current_topology outs = Return true
   <-> output_pair <$> outs ≡ₚ map_to_list current_topology)
  /\ (is_same_topology current_topology outs = Return true ->
      Zsum (amount <$> outs) = sum_values current_topology).
Proof.
  intros Hsingle Hnodup.
  assert (Hvoters : voters_of outs = list_to_map (output_pair <$> outs)).
  { rewrite voters_of_list_to_map. now apply list_to_map_rev_NoDup. }
  assert (Hiff : is_same_topology current_topology outs = Return true
                 <-> output_pair <$> outs ≡ₚ map_to_list current_topology).
  { unfold is_same_topology. rewrite is_same_topology_loop_single by exact Hsingle.
    fold (voters_of outs). rewrite Hvoters. split.
    - intros E. injection E as E. apply bool_decide_eq_true_1 in E.
      rewrite E. symmetry. now apply map_to_list_to_map.
    - intros E. unfold Return. f_equal. apply bool_decide_eq_true_2.
      rewrite (list_to_map_proper _ _ Hnodup E).
      symmetry. apply list_to_map_to_list. }
  split; [exact Hiff|]. intros Htrue. apply Hiff in Htrue.
  rewrite sum_values_map_to_list.
  replace (amount <$> outs) with ((output_pair <$> outs).*2)
    by (rewrite <- list_fmap_compose; reflexivity).
  apply Zsum_Permutation. now rewrite Htrue.
Qed.

(** The validator map holds, for a key, the voting power of the last entry
    of [bigchain.get_validators()] that decodes to it; when no two entries
    decode to the same key, the total voting power is the sum over the
    entries. *)
Theorem get_validators_last_entry (bigchain : Chain.t) (height : option Z) :
  (forall public_key power before after,
     validator_entries bigchain height = before ++ (public_key, power) :: after ->
     public_key ∉ after.*1 ->
     get_validators bigchain height !! public_key = Some power)
  /\ (forall public_key,
        get_validators bigchain height !! public_key = None
        <-> public_key ∉ (validator_entries bigchain height).*1)
  /\ (NoDup (validator_entries bigchain height).*1 ->
      (forall public_key power,
         (public_key, power) ∈ validator_entries bigchain height
         <-> get_validators bigchain height !! public_key = Some power)
      /\ sum_values (get_validators bigchain height)
         = Zsum (validator_entries bigchain height).*2).
Proof.
  rewrite get_validators_list_to_map. split; [|split].
  - intros public_key power before after E Hafter. rewrite E.
    rewrite reverse_app, reverse_cons, <- app_assoc, list_to_map_app.
    rewrite lookup_union_r.
    + cbn. apply lookup_insert_eq.
    + apply not_elem_of_list_to_map. now rewrite fmap_reverse, elem_of_reverse.
  - intros public_key. rewrite <- not_elem_of_list_to_map.
    rewrite fmap_reverse, elem_of_reverse. reflexivity.
  - intros Hnodup. rewrite (list_to_map_rev_NoDup _ Hnodup). split.
    + intros public_key power. now apply elem_of_list_to_map.
    + now apply sum_values_list_to_map.
Qed.

(** ** [recipients] *)

Lemma dict_set_list_to_map items k v :
  (list_to_map (dict_set items k v) : gmap string Z)
  = <[k := v]> (list_to_map items).
Proof.
  induction items as [|[k' v'] items IH]; [reflexivity|].
  cbn [dict_set]. destruct (String.eqb_spec k' k) as [->|Hne]; cbn.
  - now rewrite insert_insert_eq.
  - rewrite IH. now apply insert_insert_ne.
Qed.

Lemma dict_set_keys items k v :
  (dict_set items k v).*1
  = if decide (k ∈ items.*1) then items.*1 else items.*1 ++ [k].
Proof.
  induction items as [|[k' v'] items IH]; [reflexivity|].
  cbn [dict_set]. destruct (String.eqb_spec k' k) as [->|Hne]; cbn.
  - rewrite decide_True by left. reflexivity.
  - rewrite IH. destruct (decide (k ∈ items.*1)) as [Hin|Hout].
    + now rewrite decide_True by (right; exact Hin).
    + rewrite decide_False; [reflexivity|].
      intros [->|Hin]%elem_of_cons; [congruence|contradiction].
Qed.

Lemma dict_set_NoDup items k v : NoDup items.*1 -> NoDup (dict_set items k v).*1.
Proof.
  intros H. rewrite dict_set_keys. destruct (decide (k ∈ items.*1)); [exact H|].
  apply NoDup_app. split; [exact H|]. split.
  - intros x Hx Hx'. apply list_elem_of_singleton in Hx'. now subst.
  - apply NoDup_singleton.
Qed.

Lemma get_validators_items_correct bigchain height :
  list_to_map (get_validators_items bigchain height)
  = get_validators bigchain height
  /\ NoDup (get_validators_items bigchain height).*1.
Proof.
  unfold get_validators_items, get_validators.
  assert (H : forall l items (m : gmap string Z),
    list_to_map items = m -> NoDup items.*1 ->
    list_to_map
      (fold_left (fun validators validator =>
                    dict_set validators
                      (decode_public_key (public_key_value validator))
                      (voting_power validator)) l items)
    = fold_left (fun validators validator =>
                   <[decode_public_key (public_key_value validator)
                     := voting_power validator]> validators) l m
    /\ NoDup (fold_left (fun validators validator =>
                          dict_set validators
                            (decode_public_key (public_key_value validator))
                            (voting_power validator)) l items).*1).
  { induction l as [|validator l IH]; intros items m Hm Hnodup.
    - split; assumption.
    - cbn [fold_left]. apply IH.
      + rewrite dict_set_list_to_map. now rewrite Hm.
      + now apply dict_set_NoDup. }
  apply H; [reflexivity|constructor].
Qed.

Lemma recipients_map bigchain :
  recipients bigchain
  = map (fun '(public_key, voting_power) => ([public_key], voting_power))
        (get_validators_items bigchain None).
Proof.
  unfold recipients.
  assert (H : forall (l : list (string * Z)) acc,
    fold_left (fun recipients '(public_key, voting_power) =>
                 recipients ++ [([public_key], voting_power)]) l acc
    = acc ++ map (fun '(public_key, voting_power) =>
                    ([public_key], voting_power)) l).
  { induction l as [|[k v] l IH]; intros acc; cbn.
    - now rewrite app_nil_r.
    - rewrite IH, <- app_assoc. reflexivity. }
  apply H.
Qed.

Lemma output_pair_recipients bigchain :
  output_pair <$> outputs_of_recipients (recipients bigchain)
  = get_validators_items bigchain None.
Proof.
  rewrite recipients_map. unfold outputs_of_recipients.
  induction (get_validators_items bigchain None) as [|[k v] l IH];
    [reflexivity|].
  cbn. f_equal. exact IH.
Qed.

(** An election that gives out the tokens [recipients] lists always passes
    the topology check on the same chain: every output has one key, no key
    comes twice, and the amounts add up to the total voting power. *)
Theorem recipients_pass_topology_check (bigchain : Chain.t) :
  let outs := outputs_of_recipients (recipients bigchain) in
  is_same_topology (get_validators bigchain None) outs = Return true
  /\ forallb single_key outs = true
  /\ NoDup (output_pair <$> outs).*1
  /\ Zsum (amount <$> outs) = total_votes bigchain.
Proof.
  cbv zeta.
  destruct (get_validators_items_correct bigchain None) as [Hmap Hnodup].
  assert (Hsingle : forallb single_key (outputs_of_recipients (recipients bigchain))
                    = true).
  { rewrite recipients_map. unfold outputs_of_recipients.
    clear Hmap Hnodup.
    induction (get_validators_items bigchain None) as [|[k v] l IH];
      [reflexivity|exact IH]. }
  split; [|split; [exact Hsingle|split]].
  - unfold is_same_topology. rewrite is_same_topology_loop_single by exact Hsingle.
    fold (voters_of (outputs_of_recipients (recipients bigchain))).
    rewrite voters_of_list_to_map, output_pair_recipients.
    rewrite (list_to_map_rev_NoDup _ Hnodup), Hmap.
    unfold Return. f_equal. now apply bool_decide_eq_true_2.
  - now rewrite output_pair_recipients.
  - unfold total_votes. rewrite <- Hmap, (sum_values_list_to_map _ Hnodup).
    rewrite <- output_pair_recipients, <- list_fmap_compose. reflexivity.
Qed.

(** ** The first loop of the driver *)

Lemma fold_add_new_first_seen ids : forall seen,
  fold_left add_new ids seen
  = seen ++ filter (fun y => y ∉ seen) (first_seen ids).
Proof.
  clear decode_public_key inputs_valid on_approval.
  induction ids as [|x ids IH]; intros seen; cbn [fold_left first_seen].
  - now rewrite filter_nil, app_nil_r.
  - rewrite IH. unfold add_new. destruct (decide (x ∈ seen)) as [Hin|Hout].
    + rewrite filter_cons_False by (intros H; now apply H).
      f_equal. rewrite list_filter_filter. apply list_filter_iff.
      intros y. split; [|tauto]. intros Hy. split; [exact Hy|].
      intros ->. contradiction.
    + rewrite filter_cons_True by exact Hout.
      rewrite <- app_assoc. cbn. do 2 f_equal.
      rewrite list_filter_filter. apply list_filter_iff.
      intros y. rewrite elem_of_app, list_elem_of_singleton. tauto.
Qed.

Lemma first_seen_fold ids : first_seen ids = fold_left add_new ids [].
Proof.
  rewrite fold_add_new_first_seen. cbn. symmetry.
  induction (first_seen ids) as [|y l IH]; [reflexivity|].
  rewrite filter_cons_True by apply not_elem_of_nil. now rewrite IH.
Qed.

Lemma elem_of_first_seen ids x : x ∈ first_seen ids <-> x ∈ ids.
Proof.
  clear decode_public_key inputs_valid on_approval.
  induction ids as [|y ids IH]; cbn [first_seen]; [reflexivity|].
  rewrite !elem_of_cons, list_elem_of_filter, IH.
  destruct (decide (x = y)); tauto.
Qed.

Lemma NoDup_first_seen ids : NoDup (first_seen ids).
Proof.
  clear decode_public_key inputs_valid on_approval.
  induction ids as [|y ids IH]; cbn [first_seen]; [constructor|].
  apply NoDup_cons. split.
  - rewrite list_elem_of_filter. tauto.
  - now apply NoDup_filter.
Qed.

Lemma append_vote_keys elections election_id tx :
  (append_vote elections election_id tx).*1 = add_new elections.*1 election_id.
Proof.
  unfold add_new.
  induction elections as [|[k votes] rest IH]; [reflexivity|].
  cbn [append_vote]. destruct (String.eqb_spec k election_id) as [->|Hne]; cbn.
  - now rewrite decide_True by left.
  - rewrite IH. destruct (decide (election_id ∈ rest.*1)) as [Hin|Hout].
    + now rewrite decide_True by (right; exact Hin).
    + rewrite decide_False; [reflexivity|].
      intros [->|Hin]%elem_of_cons; [congruence|contradiction].
Qed.

Lemma append_vote_lookup elections election_id tx k :
  lookup_votes (append_vote elections election_id tx) k
  = lookup_votes elections k ++ (if decide (k = election_id) then [tx] else []).
Proof.
  unfold lookup_votes.
  induction elections as [|[k' votes] rest IH]; cbn [append_vote find fst snd].
  - destruct (String.eqb_spec election_id k) as [->|Hne]; cbn.
    + now rewrite decide_True.
    + now rewrite decide_False by congruence.
  - destruct (String.eqb_spec k' election_id) as [->|Hne];
      cbn [find fst snd].
    + destruct (String.eqb_spec election_id k) as [->|Hne'].
      * now rewrite decide_True.
      * rewrite decide_False by congruence. now rewrite app_nil_r.
    + destruct (String.eqb_spec k' k) as [->|Hne'].
      * rewrite decide_False by congruence. now rewrite app_nil_r.
      * exact IH.
Qed.

Lemma votes_of_cons election_id tx txns :
  votes_of election_id (tx :: txns)
  = (if is_Vote tx && bool_decide (asset_id tx = Some election_id)
     then [tx] else []) ++ votes_of election_id txns.
Proof.
  unfold votes_of. cbn [List.filter]. now destruct (_ && _).
Qed.

Lemma group_votes_general txns : forall elections,
  Forall (fun tx => is_Vote tx = true -> is_Some (asset_id tx)) txns ->
  exists grouped,
    group_votes txns elections = Return grouped
    /\ grouped.*1 = fold_left add_new (vote_ids txns) elections.*1
    /\ forall k, lookup_votes grouped k
                 = lookup_votes elections k ++ votes_of k txns.
Proof.
  induction txns as [|tx txns IH]; intros elections Hids.
  - exists elections. split; [reflexivity|]. split; [reflexivity|].
    intros k. now rewrite app_nil_r.
  - apply Forall_cons in Hids as [Hid Hids].
    cbn [group_votes]. unfold vote_ids. cbn [omap list_omap].
    fold (vote_ids txns).
    destruct (is_Vote tx) eqn:Hvote; cbn [negb].
    + destruct (Hid eq_refl) as [election_id Heid]. rewrite Heid.
      destruct (IH (append_vote elections election_id tx) Hids)
        as (grouped & Hg & Hkeys & Hlookup).
      exists grouped. split; [exact Hg|]. split.
      * rewrite Hkeys, append_vote_keys. reflexivity.
      * intros k. rewrite Hlookup, append_vote_lookup, votes_of_cons.
        rewrite Hvote, Heid, <- app_assoc. cbn [andb]. f_equal. f_equal.
        destruct (decide (k = election_id)) as [->|Hne].
        -- now rewrite bool_decide_eq_true_2.
        -- rewrite bool_decide_eq_false_2; [reflexivity|congruence].
    + destruct (IH elections Hids) as (grouped & Hg & Hkeys & Hlookup).
      exists grouped. split; [exact Hg|]. split; [exact Hkeys|].
      intros k. rewrite Hlookup, votes_of_cons, Hvote. reflexivity.
Qed.

Lemma assoc_list_by_keys (elections : list (string * list Transaction)) :
  NoDup elections.*1 ->
  elections = map (fun k => (k, lookup_votes elections k)) elections.*1.
Proof.
  induction elections as [|[k votes] rest IH]; intros Hnodup; [reflexivity|].
  cbn in Hnodup. apply NoDup_cons in Hnodup as [Hk Hnodup].
  cbn [fmap list_fmap map fst]. f_equal.
  - unfold lookup_votes. cbn. now rewrite String.eqb_refl.
  - rewrite (IH Hnodup) at 1. apply map_ext_in. intros k' Hin.
    unfold lookup_votes. cbn [find fst].
    destruct (String.eqb_spec k k') as [->|Hne]; [|reflexivity].
    exfalso. apply Hk. now apply list_elem_of_In.
Qed.

Lemma elem_of_vote_ids txns election_id :
  election_id ∈ vote_ids txns
  <-> exists tx, tx ∈ txns /\ is_Vote tx = true /\ asset_id tx = Some election_id.
Proof.
  unfold vote_ids. rewrite list_elem_of_omap. split.
  - intros (tx & Hin & Htx). exists tx. destruct (is_Vote tx); [auto|discriminate].
  - intros (tx & Hin & Hvote & Hid). exists tx. now rewrite Hvote.
Qed.

(** The first loop groups the votes of a block by election: the keys are
    the election ids the votes refer to, each once, in order of first
    appearance; the value of a key is the list of the block's votes for that
    election, in block order, and is never empty. *)
Theorem group_votes_by_first_appearance (txns : list Transaction) :
  Forall (fun tx => is_Vote tx = true -> is_Some (asset_id tx)) txns ->
  group_votes txns []
  = Return (map (fun election_id => (election_id, votes_of election_id txns))
                (first_seen (vote_ids txns)))
  /\ NoDup (first_seen (vote_ids txns))
  /\ (forall election_id,
        election_id ∈ first_seen (vote_ids txns) <->
        votes_of election_id txns <> []).
Proof.
  intros Hids.
  destruct (group_votes_general txns [] Hids) as (grouped & Hg & Hkeys & Hlookup).
  cbn in Hkeys. rewrite <- first_seen_fold in Hkeys.
  split; [|split; [apply NoDup_first_seen|]].
  - rewrite Hg. f_equal. rewrite (assoc_list_by_keys grouped).
    + rewrite Hkeys. apply map_ext. intros k. now rewrite Hlookup.
    + rewrite Hkeys. apply NoDup_first_seen.
  - intros election_id. rewrite elem_of_first_seen, elem_of_vote_ids.
    unfold votes_of. split.
    + intros (tx & Hin & Hvote & Hid) Hnil.
      assert (Hf : In tx (List.filter
                (fun tx => is_Vote tx && bool_decide (asset_id tx = Some election_id))
                txns)).
      { apply filter_In. split; [now apply list_elem_of_In|].
        rewrite Hvote. now apply bool_decide_eq_true_2. }
      rewrite Hnil in Hf. exact Hf.
    + intros Hne.
      destruct (List.filter _ txns) as [|tx l] eqn:Hf; [congruence|].
      assert (Hin : In tx (tx :: l)) by now left.
      rewrite <- Hf in Hin. apply filter_In in Hin as [Hin Hp].
      apply andb_prop in Hp as [Hvote Hid]. apply bool_decide_eq_true_1 in Hid.
      exists tx. split; [now apply list_elem_of_In|]. auto.
Qed.

(** ** The driver on votes for unknown elections *)

Lemma elem_of_fold_add_new ids : forall seen x,
  x ∈ fold_left add_new ids seen <-> x ∈ seen \/ x ∈ ids.
Proof.
  clear decode_public_key inputs_valid on_approval.
  induction ids as [|y ids IH]; intros seen x; cbn [fold_left].
  - rewrite elem_of_nil. tauto.
  - rewrite IH, elem_of_cons. unfold add_new.
    destruct (decide (y ∈ seen)) as [Hin|Hout].
    + split; [tauto|]. intros [?|[->|?]]; auto.
    + rewrite elem_of_app, list_elem_of_singleton. tauto.
Qed.

Lemma approve_loop_unknown new_height elections validator_update bigchain :
  (forall k, k ∈ elections.*1 -> Chain.get_transaction bigchain k = None) ->
  approve_loop new_height elections validator_update bigchain
  = (Return validator_update, bigchain).
Proof.
  induction elections as [|[election_id votes] rest IH]; intros Hnone.
  - reflexivity.
  - cbn [approve_loop]. rewrite bind_reads.
    rewrite (Hnone election_id) by (cbn; left).
    apply IH. intros k Hk. apply Hnone. cbn. now right.
Qed.

(** Votes that refer to ids under which the chain stores no transaction
    are passed over in silence: when every vote of the block is such a vote,
    and so too when the block has no vote at all, [approved_elections]
    returns the empty list and leaves the chain as it was. *)
Theorem approved_elections_skips_unknown_elections (new_height : Z)
    (txns : list Transaction) (bigchain : Chain.t) :
  Forall (fun tx => is_Vote tx = true ->
            exists election_id,
              asset_id tx = Some election_id
              /\ Chain.get_transaction bigchain election_id = None) txns ->
  approved_elections new_height txns bigchain = (Return [], bigchain).
Proof.
  intros Hunknown.
  assert (Hids : Forall (fun tx => is_Vote tx = true -> is_Some (asset_id tx)) txns).
  { eapply Forall_impl; [exact Hunknown|].
    intros tx H Hvote. destruct (H Hvote) as (election_id & -> & _). eauto. }
  destruct (group_votes_general txns [] Hids) as (grouped & Hg & Hkeys & _).
  unfold approved_elections. rewrite Hg, bind_lift_Return.
  unfold bind. rewrite approve_loop_unknown; [reflexivity|].
  intros k Hk. rewrite Hkeys in Hk.
  apply elem_of_fold_add_new in Hk as [Hk|Hk]; [now apply elem_of_nil in Hk|].
  apply elem_of_vote_ids in Hk as (tx & Hin & Hvote & Hid).
  rewrite Forall_forall in Hunknown.
  destruct (Hunknown tx Hin Hvote) as (election_id & Hid' & Hnone).
  congruence.
Qed.

End Election.

(** ** [to_public_key] is injective *)

(** *** [base58.b58encode] *)

Lemma app_String c x y : String c x +:+ y = String c (x +:+ y).
Proof. reflexivity. Qed.

Lemma string_snoc_inj s1 : forall s2 a b,
  s1 +:+ String a EmptyString = s2 +:+ String b EmptyString ->
  s1 = s2 /\ a = b.
Proof.
  induction s1 as [|c s1 IH]; intros [|d s2] a b E.
  - now injection E.
  - injection E as _ E. destruct s2; discriminate.
  - injection E as _ E. destruct s1; discriminate.
  - injection E as -> E. apply IH in E as [-> ->]. now split.
Qed.

(** The 58 characters of the alphabet are pairwise distinct. *)
Lemma alphabet_at_inj m n :
  (m < 58)%N -> (n < 58)%N -> alphabet_at m = alphabet_at n -> m = n.
Proof.
  intros Hm Hn E.
  assert (H : List.forallb (fun m =>
                List.forallb (fun n =>
                  implb (Ascii.eqb (alphabet_at m) (alphabet_at n)) (N.eqb m n))
                  (List.map N.of_nat (seq 0 58)))
                (List.map N.of_nat (seq 0 58)) = true)
    by (vm_compute; reflexivity).
  assert (Hin : forall k, (k < 58)%N -> In k (List.map N.of_nat (seq 0 58))).
  { intros k Hk. apply in_map_iff. exists (N.to_nat k).
    split; [lia|]. apply in_seq. lia. }
  rewrite List.forallb_forall in H. specialize (H m (Hin m Hm)).
  rewrite List.forallb_forall in H. specialize (H n (Hin n Hn)).
  rewrite E, Ascii.eqb_refl in H. now apply N.eqb_eq.
Qed.

(** The encoding of a positive integer starts with a digit other than
    the padding character [alphabet[0]]. *)
Lemma b58encode_int_nonzero i :
  i <> 0%N ->
  exists c s, b58encode_int i = String c s /\ c <> alphabet_at 0.
Proof.
  induction i as [i IH] using (well_founded_induction N.lt_wf_0).
  intros Hi. rewrite b58encode_int_unfold.
  destruct (N.eqb_spec i 0) as [|_]; [congruence|].
  assert (Hmod : (i mod 58 < 58)%N) by (apply N.mod_lt; lia).
  destruct (N.eq_dec (i / 58)%N 0%N) as [Hq|Hq].
  - rewrite Hq. exists (alphabet_at (i mod 58)), EmptyString.
    split; [reflexivity|]. intros E. apply alphabet_at_inj in E; [|lia..].
    pose proof (N.div_mod i 58). lia.
  - destruct (IH (i / 58)%N) as (c & s & -> & Hc); [|exact Hq|].
    + apply N.div_lt; lia.
    + eexists _, _. split; [apply app_String|exact Hc].
Qed.

Lemma b58encode_int_inj i : forall j,
  b58encode_int i = b58encode_int j -> i = j.
Proof.
  induction i as [i IH] using (well_founded_induction N.lt_wf_0).
  intros j E.
  destruct (N.eq_dec i 0%N) as [->|Hi]; [|destruct (N.eq_dec j 0%N) as [->|Hj]].
  - destruct (N.eq_dec j 0%N) as [|Hj]; [congruence|].
    destruct (b58encode_int_nonzero j Hj) as (c & s & Hs & _).
    rewrite Hs in E. discriminate.
  - destruct (b58encode_int_nonzero i Hi) as (c & s & Hs & _).
    rewrite Hs in E. discriminate.
  - rewrite (b58encode_int_unfold i), (b58encode_int_unfold j) in E.
    destruct (N.eqb_spec i 0) as [|_]; [congruence|].
    destruct (N.eqb_spec j 0) as [|_]; [congruence|].
    apply string_snoc_inj in E as [Ediv Emod].
    apply IH in Ediv; [|apply N.div_lt; lia].
    apply alphabet_at_inj in Emod; [|apply N.mod_lt; lia..].
    rewrite (N.div_mod i 58), (N.div_mod j 58) by lia. congruence.
Qed.

Lemma replicate_char_prefix_inj c n : forall m s t,
  (forall s', s <> String c s') -> (forall t', t <> String c t') ->
  replicate_char n c +:+ s = replicate_char m c +:+ t ->
  n = m /\ s = t.
Proof.
  induction n as [|n IH]; intros [|m] s t Hs Ht E; cbn [replicate_char] in E.
  - now split.
  - rewrite app_String in E. now apply Hs in E.
  - rewrite app_String in E. symmetry in E. now apply Ht in E.
  - rewrite !app_String in E. injection E as E.
    apply IH in E as [-> ->]; auto.
Qed.

Lemma b58encode_int_no_pad i s' : b58encode_int i <> String (alphabet_at 0) s'.
Proof.
  destruct (N.eq_dec i 0%N) as [->|Hi]; [discriminate|].
  destruct (b58encode_int_nonzero i Hi) as (c & s & -> & Hc). congruence.
Qed.

(** The loop of [bytes_to_int] reads the bytes as a big-endian number. *)
Lemma bytes_to_int_fold l : forall p acc,
  fold_left (fun '(p, acc) c => (N.shiftl p 8, acc + p * Byte.to_N c)%N) l (p, acc)
  = ((p * 256 ^ N.of_nat (length l))%N,
     (acc + p * snd (fold_left
                       (fun '(p, acc) c => (N.shiftl p 8, acc + p * Byte.to_N c)%N)
                       l (1%N, 0%N)))%N).
Proof.
  induction l as [|c l IH]; intros p acc; cbn [fold_left length].
  - cbn. f_equal; lia.
  - rewrite IH. rewrite (IH (N.shiftl 1 8)). cbn [snd].
    rewrite Nat2N.inj_succ, N.pow_succ_r', !N.shiftl_mul_pow2.
    change (2 ^ 8)%N with 256%N. f_equal; lia.
Qed.

Lemma bytes_to_int_nil : bytes_to_int [] = 0%N.
Proof. reflexivity. Qed.

Lemma bytes_to_int_cons c v :
  bytes_to_int (c :: v)
  = (Byte.to_N c * 256 ^ N.of_nat (length v) + bytes_to_int v)%N.
Proof.
  unfold bytes_to_int. cbn [rev]. rewrite fold_left_app.
  rewrite (bytes_to_int_fold (rev v) 1 0). cbn [fold_left snd].
  rewrite length_rev. lia.
Qed.

Lemma bytes_to_int_lt v : (bytes_to_int v < 256 ^ N.of_nat (length v))%N.
Proof.
  induction v as [|c v IH].
  - cbn. lia.
  - rewrite bytes_to_int_cons. cbn [length].
    rewrite Nat2N.inj_succ, N.pow_succ_r'.
    pose proof (Byte.to_N_bounded c). nia.
Qed.

Lemma byte_to_N_inj (c d : byte) : Byte.to_N c = Byte.to_N d -> c = d.
Proof.
  intros E. pose proof (Byte.of_to_N c) as Hc. rewrite E, Byte.of_to_N in Hc.
  congruence.
Qed.

Lemma bytes_to_int_inj_length v : forall w,
  length v = length w -> bytes_to_int v = bytes_to_int w -> v = w.
Proof.
  induction v as [|c v IH]; intros [|d w] Hlen E; try discriminate.
  - reflexivity.
  - injection Hlen as Hlen. rewrite !bytes_to_int_cons, Hlen in E.
    pose proof (bytes_to_int_lt v) as Hv. rewrite Hlen in Hv.
    pose proof (bytes_to_int_lt w) as Hw.
    assert (Hcd : Byte.to_N c = Byte.to_N d) by nia.
    rewrite Hcd in E. apply byte_to_N_inj in Hcd as ->.
    f_equal. apply IH; [exact Hlen|lia].
Qed.

Lemma lstrip0_head v :
  lstrip0 v = [] \/ exists c w, lstrip0 v = c :: w /\ c <> x00.
Proof.
  induction v as [|c v IH]; [now left|].
  destruct (Byte.byte_eq_dec c x00) as [->|Hc]; [exact IH|].
  right. exists c, v. split; [|exact Hc]. now destruct c.
Qed.

Lemma lstrip0_pad v :
  v = List.repeat x00 (length v - length (lstrip0 v)) ++ lstrip0 v
  /\ (length (lstrip0 v) <= length v)%nat.
Proof.
  induction v as [|c v [IH Hle]]; [now split|].
  destruct (Byte.byte_eq_dec c x00) as [->|Hc].
  - cbn [lstrip0 length]. split; [|lia].
    replace (S (length v) - length (lstrip0 v))%nat
      with (S (length v - length (lstrip0 v))) by lia.
    cbn [List.repeat app]. now rewrite <- IH.
  - replace (lstrip0 (c :: v)) with (c :: v) by now destruct c.
    split; [|lia]. now rewrite Nat.sub_diag.
Qed.

Lemma bytes_to_int_stripped_ge c v :
  c <> x00 -> (256 ^ N.of_nat (length v) <= bytes_to_int (c :: v))%N.
Proof.
  intros Hc. rewrite bytes_to_int_cons.
  assert (Byte.to_N c <> 0%N).
  { intros E. apply Hc. now apply byte_to_N_inj. }
  nia.
Qed.

(** Without leading zero bytes the value determines the length. *)
Lemma bytes_to_int_inj_stripped v w :
  (forall v', v <> x00 :: v') -> (forall w', w <> x00 :: w') ->
  bytes_to_int v = bytes_to_int w -> v = w.
Proof.
  intros Hv Hw E.
  assert (Hlen : forall a b : list byte,
            (forall a', a <> x00 :: a') -> bytes_to_int a = bytes_to_int b ->
            (length a <= length b)%nat).
  { intros [|c a] b Ha Eab; [cbn; lia|].
    assert (Hc : c <> x00) by (intros ->; now apply (Ha a)).
    pose proof (bytes_to_int_stripped_ge c a Hc) as Hge.
    pose proof (bytes_to_int_lt b) as Hlt. rewrite Eab in Hge.
    assert (H : (256 ^ N.of_nat (length a) < 256 ^ N.of_nat (length b))%N) by lia.
    apply N.pow_lt_mono_r_iff in H; [|lia]. cbn [length]. lia. }
  apply bytes_to_int_inj_length; [|exact E].
  apply Nat.le_antisymm; [apply Hlen|apply Hlen]; auto.
Qed.

Lemma lstrip0_no_zero v v' : lstrip0 v <> x00 :: v'.
Proof.
  destruct (lstrip0_head v) as [->|(c & w & -> & Hc)]; congruence.
Qed.

Lemma b58encode_inj v w : b58encode v = b58encode w -> v = w.
Proof.
  unfold b58encode. intros E.
  apply replicate_char_prefix_inj in E as [Hpad E];
    [|apply b58encode_int_no_pad..].
  apply b58encode_int_inj in E.
  apply bytes_to_int_inj_stripped in E; [|apply lstrip0_no_zero..].
  rewrite (proj1 (lstrip0_pad v)), (proj1 (lstrip0_pad w)).
  now rewrite Hpad, E.
Qed.

(** *** [bytes.fromhex] on lower-case digits *)

Ltac hex_cases :=
  cbv zeta;
  repeat match goal with
  | |- context [if ?b then _ else _] => destruct b eqn:?
  end;
  intros;
  repeat match goal with
  | H : (_ && _) = true |- _ => apply andb_prop in H as [? ?]
  | H : (_ && _) = false |- _ => apply andb_false_iff in H as [?|?]
  | H : (_ || _) = true |- _ => apply orb_prop in H as [?|?]
  | H : (_ <=? _)%N = true |- _ => apply N.leb_le in H
  | H : (_ <=? _)%N = false |- _ => apply N.leb_gt in H
  end;
  simplify_eq; try lia.

Lemma hex_digit_lt c d : hex_digit c = Some d -> (d < 16)%N.
Proof.
  unfold hex_digit. generalize (N_of_ascii c). intros n. hex_cases.
Qed.

Lemma hex_digit_lower_inj c c' d :
  is_lower_hex_digit c = true -> is_lower_hex_digit c' = true ->
  hex_digit c = Some d -> hex_digit c' = Some d -> c = c'.
Proof.
  unfold is_lower_hex_digit, hex_digit. intros Hc Hc' E E'.
  rewrite <- (ascii_N_embedding c), <- (ascii_N_embedding c'). f_equal.
  revert Hc Hc' E E'. generalize (N_of_ascii c) (N_of_ascii c'). intros n n'.
  hex_cases.
Qed.

Lemma make_byte_inj t b t' b' :
  (t < 16)%N -> (b < 16)%N -> (t' < 16)%N -> (b' < 16)%N ->
  make_byte t b = make_byte t' b' -> t = t' /\ b = b'.
Proof.
  unfold make_byte. intros Ht Hb Ht' Hb' E.
  apply (f_equal ascii_of_byte) in E. rewrite !ascii_of_byte_of_ascii in E.
  apply (f_equal N_of_ascii) in E.
  rewrite !N_ascii_embedding in E by lia. lia.
Qed.

Lemma fromhex_digit_cons c rest v :
  is_lower_hex_digit c = true -> fromhex (String c rest) = Some v ->
  exists c' rest' top bot bs,
    rest = String c' rest' /\ hex_digit c = Some top
    /\ hex_digit c' = Some bot /\ fromhex rest' = Some bs
    /\ v = make_byte top bot :: bs.
Proof.
  intros Hc E. cbn [fromhex] in E.
  destruct (hex_digit c) as [top|] eqn:Htop.
  - rewrite (hex_digit_not_space _ _ Htop) in E.
    destruct rest as [|c' rest']; [discriminate|].
    destruct (hex_digit c') as [bot|] eqn:Hbot; [|discriminate].
    destruct (fromhex rest') as [bs|] eqn:Hbs; [|discriminate].
    injection E as <-. now exists c', rest', top, bot, bs.
  - exfalso. revert Hc Htop. unfold is_lower_hex_digit, hex_digit.
    generalize (N_of_ascii c). intros n. hex_cases.
Qed.

Lemma fromhex_hexdigest_inj s1 :
  (forall s2 v, is_hexdigest s1 = true -> is_hexdigest s2 = true ->
     fromhex s1 = Some v -> fromhex s2 = Some v -> s1 = s2)
  /\ (forall c s2 v, is_hexdigest (String c s1) = true ->
        is_hexdigest s2 = true ->
        fromhex (String c s1) = Some v -> fromhex s2 = Some v ->
        String c s1 = s2).
Proof.
  induction s1 as [|c' s1 [IH1 IH2]].
  - split.
    + intros [|d s2] v _ H2 E1 E2; [reflexivity|].
      cbn [is_hexdigest] in H2. apply andb_prop in H2 as [Hd _].
      destruct (fromhex_digit_cons _ _ _ Hd E2) as (? & ? & ? & ? & ? & _ & _ & _ & _ & ->).
      discriminate.
    + intros c s2 v H1 _ E1. cbn [is_hexdigest] in H1.
      apply andb_prop in H1 as [Hc _].
      destruct (fromhex_digit_cons _ _ _ Hc E1) as (? & ? & ? & ? & ? & ? & _).
      discriminate.
  - split; [apply IH2|].
    intros c s2 v H1 H2 E1 E2. cbn [is_hexdigest] in H1.
    apply andb_prop in H1 as [Hc H1]. apply andb_prop in H1 as [Hc' H1].
    destruct (fromhex_digit_cons _ _ _ Hc E1)
      as (c1 & r1 & t1 & b1 & bs1 & [= <- <-] & Ht1 & Hb1 & Hbs1 & ->).
    destruct s2 as [|d s2]; [discriminate|].
    cbn [is_hexdigest] in H2. apply andb_prop in H2 as [Hd H2].
    destruct (fromhex_digit_cons _ _ _ Hd E2)
      as (d' & r2 & t2 & b2 & bs2 & -> & Ht2 & Hb2 & Hbs2 & [= Hbyte <-]).
    cbn [is_hexdigest] in H2. apply andb_prop in H2 as [Hd' H2].
    symmetry in Hbyte.
    apply make_byte_inj in Hbyte as [-> ->]; eauto using hex_digit_lt.
    rewrite (hex_digit_lower_inj _ _ _ Hc Hd Ht1 Ht2).
    rewrite (hex_digit_lower_inj _ _ _ Hc' Hd' Hb1 Hb2).
    do 2 f_equal. now apply (IH1 r2 bs1).
Qed.

(** Two election ids with the same election public key decode to the same
    bytes: [base58.b58encode] is injective (the number of leading [1]s gives
    the leading zero bytes, the remaining digits the big-endian value), so
    [to_public_key] identifies two ids only when [bytes.fromhex] does, that
    is, up to letter case and whitespace.  Two ids written with lower-case
    hexadecimal digits only, as hexdigests are, that have the same public
    key are equal. *)
Theorem to_public_key_injective (id1 id2 pk : string) :
  to_public_key id1 = Return pk -> to_public_key id2 = Return pk ->
  fromhex id1 = fromhex id2
  /\ (is_hexdigest id1 = true -> is_hexdigest id2 = true -> id1 = id2).
Proof.
  unfold to_public_key. intros E1 E2.
  destruct (fromhex id1) as [v1|] eqn:H1; [|discriminate].
  destruct (fromhex id2) as [v2|] eqn:H2; [|discriminate].
  injection E1 as E1. injection E2 as E2.
  assert (v1 = v2) as -> by (apply b58encode_inj; congruence).
  split; [reflexivity|]. intros D1 D2.
  now apply (proj1 (fromhex_hexdigest_inj id1) id2 v2).
Qed.

(** * Instances *)

(** Known vectors of the two library functions. *)
Example fromhex_deadbeef :
  fromhex "dead BEEF" = Some [xde; xad; xbe; xef].
Proof. reflexivity. Qed.

Example b58encode_hello_world :
  b58encode [x68; x65; x6c; x6c; x6f; x20; x77; x6f; x72; x6c; x64]
  = "StV1DL6CwTryKyV".
Proof. vm_compute. reflexivity. Qed.

Example b58encode_leading_zeros :
  b58encode [x00; x00; x28; x7f; xb4; xcd] = "11233QC4".
Proof. vm_compute. reflexivity. Qed.

(** C8, instances: an identifier with a leading zero byte, and an
    undecodable one. *)
Lemma to_public_key_hex_base58_witness :
  to_public_key "00ff" = Return "15Q"
  /\ to_public_key "0g" = Raise ValueError.
Proof.
  destruct (to_public_key_hex_base58 "00ff") as [H1 _].
  destruct (to_public_key_hex_base58 "0g") as [_ [H2 _]].
  split; [exact (proj1 (H1 eq_refl)) | exact (H2 eq_refl)].
Defined.

(** C8, counterexample to the claim as stated: an id that is not decodable
    as hex makes the call fail with [ValueError], not [InvalidElectionId]. *)
Lemma to_public_key_non_hex_raises_ValueError :
  fromhex "not-hex" = None
  /\ to_public_key "not-hex" = Raise ValueError
  /\ to_public_key "not-hex" <> Raise InvalidElectionId.
Proof. repeat split. discriminate. Qed.

(** C7, the code at a failing input.  One validator A with 5 units; the
    election gives A its 5 votes and carries one more output whose
    [public_keys] is empty (cardinality 0, hence different from 1).
    [is_same_topology] does not return false: the unpacking fails with
    [ValueError], and [validate] lets it escape in place of
    [UnequalValidatorSet]. *)
Theorem is_same_topology_empty_keys_raises :
  let current_topology : gmap string Z := {[ "A" := 5 ]} in
  let election_topology := [mkOutput ["A"] 5; mkOutput [] 1] in
  let self :=
    mkTransaction "aa" "VALIDATOR_ELECTION" None [mkInput ["A"]] election_topology in
  let bigchain := Scenario.chain [mkValidator "A" 5] [] [] None None [] in
  Exists (fun o => length (public_keys o) <> 1%nat) election_topology
  /\ is_same_topology current_topology election_topology = Raise ValueError
  /\ is_same_topology current_topology election_topology <> Return false
  /\ validate Scenario.decode_public_key Scenario.inputs_valid self [] bigchain
     = (Raise ValueError, bigchain).
Proof.
  cbv zeta. split; [|split; [|split]].
  - apply Exists_cons_tl, Exists_cons_hd. discriminate.
  - vm_compute. reflexivity.
  - vm_compute. discriminate.
  - vm_compute. reflexivity.
Qed.

(** C1, counterexample to the claim as stated: a block whose votes
    conclude two elections, each hook returning a non-null update.  The
    list of all non-null updates has two entries; the code returns the
    second alone. *)
Lemma approved_elections_drops_first_update :
  let bigchain :=
    Scenario.chain Scenario.ABC [Scenario.E1; Scenario.E2] [] None None [] in
  let block :=
    [Scenario.vote "v1" "aa" "A" 5; Scenario.vote "v2" "bb" "A" 5;
     Scenario.vote "v3" "aa" "B" 5; Scenario.vote "v4" "bb" "B" 5] in
  fst (approved_elections_spec Scenario.decode_public_key Scenario.on_approval
         7 block bigchain) = Return ["aa"; "bb"]
  /\ fst (approved_elections Scenario.decode_public_key Scenario.on_approval
            7 block bigchain) = Return ["bb"]
  /\ fst (approved_elections Scenario.decode_public_key Scenario.on_approval
            7 block bigchain)
     <> fst (approved_elections_spec Scenario.decode_public_key Scenario.on_approval
               7 block bigchain).
Proof.
  cbv zeta.
  assert (H1 : fst (approved_elections_spec Scenario.decode_public_key
                      Scenario.on_approval 7
                      [Scenario.vote "v1" "aa" "A" 5; Scenario.vote "v2" "bb" "A" 5;
                       Scenario.vote "v3" "aa" "B" 5; Scenario.vote "v4" "bb" "B" 5]
                      (Scenario.chain Scenario.ABC [Scenario.E1; Scenario.E2]
                         [] None None []))
               = Return ["aa"; "bb"]) by (vm_compute; reflexivity).
  assert (H2 : fst (approved_elections Scenario.decode_public_key
                      Scenario.on_approval 7
                      [Scenario.vote "v1" "aa" "A" 5; Scenario.vote "v2" "bb" "A" 5;
                       Scenario.vote "v3" "aa" "B" 5; Scenario.vote "v4" "bb" "B" 5]
                      (Scenario.chain Scenario.ABC [Scenario.E1; Scenario.E2]
                         [] None None []))
               = Return ["bb"]) by (vm_compute; reflexivity).
  split; [exact H1|]. split; [exact H2|].
  rewrite H1, H2. discriminate.
Qed.

(** C2, the code at a failing input.  One validator holds
    [3 * 2^50 + 2] units of voting power; [2^51] votes are committed and one
    more is pending.  Two thirds of the total is [2^51 + 4/3], so the
    pending vote does not reach it: [3 * (committed + pending) < 2 * T].
    The double [(2/3) * T] is [2^51 + 1], and [has_concluded] returns true. *)
Theorem has_concluded_rounds_threshold_down :
  let T := 3 * 2 ^ 50 + 2 in
  let committed := 2 ^ 51 in
  let pending := 1 in
  let bigchain :=
    Scenario.chain [mkValidator "A" T] [Scenario.election "aa" [("A", T)]]
      [Scenario.vote "v1" "aa" "A" committed] None None [] in
  let self := Scenario.election "aa" [("A", T)] in
  let current_votes := [Scenario.vote "v2" "aa" "A" pending] in
  total_votes Scenario.decode_public_key bigchain = T
  /\ get_commited_votes self (Scenario.election_pk "aa") bigchain = committed
  /\ count_votes (Scenario.election_pk "aa") current_votes = pending
  /\ has_validator_set_changed self bigchain = false
  /\ float_mul_int two_thirds T = Return (S754_finite false 4503599627370498 (-1))
  /\ (3 * committed <? 2 * T) && (2 * T <=? 3 * (committed + pending)) = false
  /\ fst (has_concluded Scenario.decode_public_key self current_votes bigchain)
     = Return true.
Proof. cbv zeta. repeat split; vm_compute; reflexivity. Qed.

(** C3, an instance (scenarios S1 and S2): validators A, B, C with 5 units
    each; A's vote is committed and B's vote concludes the election; with
    both committed, C's vote concludes nothing. *)
Lemma has_concluded_fires_once_witness :
  let self := Scenario.E1 in
  let before :=
    Scenario.chain Scenario.ABC [self] [Scenario.vote "v1" "aa" "A" 5]
      None None [] in
  let later :=
    Scenario.chain Scenario.ABC [self]
      [Scenario.vote "v1" "aa" "A" 5; Scenario.vote "v2" "aa" "B" 5]
      None None [] in
  has_concluded Scenario.decode_public_key self
    [Scenario.vote "v2" "aa" "B" 5] before = (Return true, before)
  /\ has_concluded Scenario.decode_public_key self
       [Scenario.vote "v3" "aa" "C" 5] later = (Return false, later).
Proof.
  cbv zeta.
  assert (Hfired : has_concluded Scenario.decode_public_key Scenario.E1
            [Scenario.vote "v2" "aa" "B" 5]
            (Scenario.chain Scenario.ABC [Scenario.E1]
               [Scenario.vote "v1" "aa" "A" 5] None None [])
          = (Return true,
             Scenario.chain Scenario.ABC [Scenario.E1]
               [Scenario.vote "v1" "aa" "A" 5] None None []))
    by (vm_compute; reflexivity).
  split; [exact Hfired|].
  apply (has_concluded_fires_once Scenario.decode_public_key Scenario.E1
           [Scenario.vote "v2" "aa" "B" 5] [Scenario.vote "v3" "aa" "C" 5]
           (Scenario.chain Scenario.ABC [Scenario.E1]
              [Scenario.vote "v1" "aa" "A" 5] None None [])
           (Scenario.chain Scenario.ABC [Scenario.E1]
              [Scenario.vote "v1" "aa" "A" 5; Scenario.vote "v2" "aa" "B" 5]
              None None [])
           (Scenario.election_pk "aa")).
  - vm_compute. reflexivity.
  - exact Hfired.
  - vm_compute. discriminate.
  - right. reflexivity.
Defined.

(** C4, an instance (scenario S5): the election is included at height 100,
    the validator set changes at height 150. *)
Lemma changed_validator_set_never_concludes_witness :
  let self := Scenario.E1 in
  let bigchain :=
    Scenario.chain Scenario.ABC [self] [Scenario.vote "v1" "aa" "A" 5]
      (Some (mkBlock 160)) (Some (mkValidatorChange 150 [("A", 5); ("B", 5); ("C", 4)]))
      [100] in
  has_concluded Scenario.decode_public_key self
    [Scenario.vote "v2" "aa" "B" 5] bigchain = (Return false, bigchain)
  /\ get_status self bigchain = INCONCLUSIVE.
Proof.
  cbv zeta.
  destruct (changed_validator_set_never_concludes (ValidatorUpdate := string)
              Scenario.decode_public_key Scenario.on_approval Scenario.E1
              (Scenario.chain Scenario.ABC [Scenario.E1]
                 [Scenario.vote "v1" "aa" "A" 5]
                 (Some (mkBlock 160))
                 (Some (mkValidatorChange 150 [("A", 5); ("B", 5); ("C", 4)]))
                 [100])
              100 [] (mkValidatorChange 150 [("A", 5); ("B", 5); ("C", 4)])
              (Scenario.election_pk "aa"))
    as (Hconcluded & Hstatus & _).
  - vm_compute. reflexivity.
  - reflexivity.
  - reflexivity.
  - vm_compute. reflexivity.
  - split; [apply Hconcluded | exact Hstatus].
Defined.

(** C6, the code at a failing input.  One validator A with 5 units; the
    election carries two outputs to A, 5 units each, so A is allotted 10
    votes.  The second entry overwrites the first in [voters], the two maps
    are equal, [is_same_topology] returns true and [validate] accepts. *)
Theorem is_same_topology_accepts_duplicate_outputs :
  let current_topology : gmap string Z := {[ "A" := 5 ]} in
  let self := Scenario.election "aa" [("A", 5); ("A", 5)] in
  let bigchain := Scenario.chain [mkValidator "A" 5] [] [] None None [] in
  outputs self = [mkOutput ["A"] 5; mkOutput ["A"] 5]
  /\ get_validators Scenario.decode_public_key bigchain None = current_topology
  /\ is_same_topology current_topology (outputs self) = Return true
  /\ fst (validate Scenario.decode_public_key Scenario.inputs_valid self [] bigchain)
     = Return self.
Proof. cbv zeta. repeat split; vm_compute; reflexivity. Qed.

(** C5, an instance (scenario S6): an output that lists the election key
    together with another key counts for nothing. *)
Lemma count_votes_exact_singleton_witness :
  let pk := Scenario.election_pk "aa" in
  let mixed :=
    mkTransaction "v1" "VOTE" (Some "aa") [mkInput ["A"]]
      [mkOutput [pk; "X"] 5; mkOutput [pk] 3] in
  count_votes pk [mixed] = 3
  /\ count_output pk 7 (mkOutput [pk; "X"] 5) = 7.
Proof.
  cbv zeta.
  destruct (count_votes_exact_singleton (Scenario.election_pk "aa")
              [mkTransaction "v1" "VOTE" (Some "aa") [mkInput ["A"]]
                 [mkOutput [Scenario.election_pk "aa"; "X"] 5;
                  mkOutput [Scenario.election_pk "aa"] 3]])
    as (Hcount & Hother & _).
  split.
  - rewrite Hcount. vm_compute. reflexivity.
  - apply Hother. vm_compute. discriminate.
Defined.

(** C9, an instance: two blocks of votes for one election. *)
Lemma count_votes_additive_witness :
  let pk := Scenario.election_pk "aa" in
  let xs := [Scenario.vote "v1" "aa" "A" 5] in
  let ys := [Scenario.vote "v2" "aa" "B" 5; Scenario.vote "v3" "bb" "C" 5] in
  count_votes pk (xs ++ ys) = count_votes pk xs + count_votes pk ys
  /\ 0 <= count_votes pk xs.
Proof.
  cbv zeta.
  destruct (count_votes_additive (Scenario.election_pk "aa")
              [Scenario.vote "v1" "aa" "A" 5]
              [Scenario.vote "v2" "aa" "B" 5; Scenario.vote "v3" "bb" "C" 5])
    as (Happ & _ & _ & Hnonneg).
  split; [exact Happ|]. apply Hnonneg.
  repeat constructor; vm_compute; discriminate.
Defined.

(** The exactness theorem at scenario S1: with 15 units of voting power, 5
    committed and 5 pending, the election concludes. *)
Lemma has_concluded_exact_below_2_50_witness :
  let self := Scenario.E1 in
  let bigchain :=
    Scenario.chain Scenario.ABC [self] [Scenario.vote "v1" "aa" "A" 5]
      None None [] in
  has_concluded Scenario.decode_public_key self
    [Scenario.vote "v2" "aa" "B" 5] bigchain
  = (Return ((3 * 5 <? 2 * 15) && (2 * 15 <=? 3 * (5 + 5))), bigchain).
Proof.
  cbv zeta.
  apply (has_concluded_exact_below_2_50 Scenario.decode_public_key Scenario.E1
           [Scenario.vote "v2" "aa" "B" 5]
           (Scenario.chain Scenario.ABC [Scenario.E1]
              [Scenario.vote "v1" "aa" "A" 5] None None [])
           (Scenario.election_pk "aa")).
  - vm_compute. reflexivity.
  - reflexivity.
  - vm_compute. split; [discriminate | reflexivity].
Defined.

(** C10, instances (scenarios S3 and S4 and a valid election): the chain
    comes back as it was given, and a valid election is returned itself. *)
Lemma validate_read_only_witness :
  let bigchain := Scenario.chain Scenario.ABC [] [] None None [] in
  let wrong_power := Scenario.election "cc" [("A", 5); ("B", 5); ("C", 4)] in
  let wrong_proposer :=
    mkTransaction "dd" "VALIDATOR_ELECTION" None [mkInput ["D"]] (outputs Scenario.E1) in
  validate Scenario.decode_public_key Scenario.inputs_valid Scenario.E1 [] bigchain
  = (Return Scenario.E1, bigchain)
  /\ validate Scenario.decode_public_key Scenario.inputs_valid wrong_power [] bigchain
     = (Raise UnequalValidatorSet, bigchain)
  /\ validate Scenario.decode_public_key Scenario.inputs_valid wrong_proposer [] bigchain
     = (Raise InvalidProposer, bigchain)
  /\ validate Scenario.decode_public_key Scenario.inputs_valid Scenario.E1
       [Scenario.E1] bigchain
     = (Raise DuplicateTransaction, bigchain).
Proof.
  cbv zeta.
  pose proof (validate_read_only Scenario.decode_public_key Scenario.inputs_valid
                Scenario.E1 [] (Scenario.chain Scenario.ABC [] [] None None []))
    as (Hstate & _ & _).
  split; [|repeat split; vm_compute; reflexivity].
  rewrite (surjective_pairing (validate _ _ _ _ _)), Hstate.
  f_equal.
Defined.

(** * The class [Election] without a subclass *)

Lemma approve_loop_base_hook {ValidatorUpdate : Type}
    (decode_public_key : string -> string) (new_height : Z)
    (elections : list (string * list Transaction)) :
  forall (validator_update : option ValidatorUpdate) (bigchain : Chain.t),
  approve_loop decode_public_key on_approval_base new_height elections
    validator_update bigchain = (Return validator_update, bigchain)
  \/ exists e,
       approve_loop decode_public_key on_approval_base new_height elections
         validator_update bigchain = (Raise e, bigchain).
Proof.
  induction elections as [|[election_id votes] rest IH];
    intros validator_update bigchain.
  - now left.
  - cbn [approve_loop]. rewrite bind_reads.
    destruct (Chain.get_transaction bigchain election_id) as [election|];
      [|apply IH].
    pose proof (has_concluded_read_only decode_public_key election votes bigchain)
      as Hro.
    destruct (has_concluded decode_public_key election votes bigchain)
      as [[e|[|]] b1] eqn:Hc; cbn in Hro; subst b1.
    + right. exists e. now apply bind_raised.
    + right. exists NotImplementedError.
      rewrite (bind_returned _ _ _ _ _ Hc). reflexivity.
    + rewrite (bind_returned _ _ _ _ _ Hc). apply IH.
Qed.

(** With the [on_approval] of [Election] itself, which raises
    [NotImplementedError], [approved_elections] never changes the chain and
    never returns an update: it returns the empty list or raises, and it
    raises [NotImplementedError] when the first election of the block has
    concluded. *)
Theorem approved_elections_base_hook {ValidatorUpdate : Type}
    (decode_public_key : string -> string) (new_height : Z)
    (txns : list Transaction) (bigchain : Chain.t) :
  (approved_elections (ValidatorUpdate := ValidatorUpdate) decode_public_key
     on_approval_base new_height txns bigchain = (Return [], bigchain)
   \/ exists e,
        approved_elections (ValidatorUpdate := ValidatorUpdate) decode_public_key
          on_approval_base new_height txns bigchain = (Raise e, bigchain))
  /\ (forall election votes rest,
        group_votes txns [] = Return ((id election, votes) :: rest) ->
        Chain.get_transaction bigchain (id election) = Some election ->
        has_concluded decode_public_key election votes bigchain
        = (Return true, bigchain) ->
        approved_elections (ValidatorUpdate := ValidatorUpdate) decode_public_key
          on_approval_base new_height txns bigchain
        = (Raise NotImplementedError, bigchain)).
Proof.
  unfold approved_elections. split.
  - destruct (group_votes txns []) as [e|elections].
    + right. now exists e.
    + rewrite bind_lift_Return. unfold bind.
      destruct (approve_loop_base_hook (ValidatorUpdate := ValidatorUpdate)
                  decode_public_key new_height elections None bigchain)
        as [H|[e H]]; rewrite H.
      * now left.
      * right. now exists e.
  - intros election votes rest Hg Hget Hconcluded.
    rewrite Hg, bind_lift_Return. cbn [approve_loop].
    apply bind_raised. rewrite bind_reads, Hget.
    rewrite (bind_returned _ _ _ _ _ Hconcluded). reflexivity.
Qed.

(** * Instances of the further properties *)

Lemma count_votes_permutation_witness :
  count_votes (Scenario.election_pk "aa")
    [Scenario.vote "v1" "aa" "A" 5; Scenario.vote "v2" "bb" "B" 5;
     Scenario.vote "v3" "aa" "C" 3]
  = count_votes (Scenario.election_pk "aa")
      [Scenario.vote "v3" "aa" "C" 3; Scenario.vote "v1" "aa" "A" 5;
       Scenario.vote "v2" "bb" "B" 5].
Proof.
  apply count_votes_permutation.
  apply Permutation_sym. apply (Permutation_cons_append [_; _]).
Defined.

Lemma has_concluded_needs_new_votes_witness :
  let bigchain :=
    Scenario.chain Scenario.ABC [Scenario.E1]
      [Scenario.vote "v1" "aa" "A" 5; Scenario.vote "v2" "aa" "B" 5]
      None None [] in
  let block := [Scenario.vote "v3" "bb" "C" 5] in
  has_concluded Scenario.decode_public_key Scenario.E1 block bigchain
  = (Return false, bigchain)
  \/ has_concluded Scenario.decode_public_key Scenario.E1 block bigchain
     = (Raise OverflowError, bigchain).
Proof.
  cbv zeta.
  apply (has_concluded_needs_new_votes Scenario.decode_public_key Scenario.E1
           [Scenario.vote "v3" "bb" "C" 5] _ (Scenario.election_pk "aa")).
  - vm_compute. reflexivity.
  - vm_compute. discriminate.
Defined.

Lemma inconclusive_never_concludes_witness :
  let bigchain :=
    Scenario.chain Scenario.ABC [Scenario.E1] [Scenario.vote "v1" "aa" "A" 5]
      (Some (mkBlock 160)) (Some (mkValidatorChange 150 [("A", 5); ("B", 5)]))
      [100] in
  has_concluded Scenario.decode_public_key Scenario.E1
    [Scenario.vote "v2" "aa" "B" 5; Scenario.vote "v3" "aa" "C" 5] bigchain
  = (Return false, bigchain).
Proof.
  cbv zeta.
  apply (inconclusive_never_concludes Scenario.decode_public_key Scenario.E1 _
           (Scenario.election_pk "aa")).
  - vm_compute. reflexivity.
  - reflexivity.
Defined.

Lemma validate_duplicate_first_witness :
  let bigchain := Scenario.chain Scenario.ABC [] [] None None [] in
  let unsigned :=
    mkTransaction "aa" "VALIDATOR_ELECTION" None [] [] in
  validate Scenario.decode_public_key (fun _ _ => false) unsigned
    [Scenario.E2; Scenario.E1] bigchain
  = (Raise DuplicateTransaction, bigchain).
Proof.
  cbv zeta. apply validate_duplicate_first. right.
  apply Exists_cons_tl, Exists_cons_hd. reflexivity.
Defined.

Lemma is_same_topology_distinct_keys_witness :
  let current_topology : gmap string Z :=
    {[ "A" := 5; "B" := 7 ]} in
  let outs := [mkOutput ["B"] 7; mkOutput ["A"] 5] in
  is_same_topology current_topology outs = Return true
  /\ Zsum (amount <$> outs) = sum_values current_topology.
Proof.
  cbv zeta.
  destruct (is_same_topology_distinct_keys
              {[ "A" := 5; "B" := 7 ]} [mkOutput ["B"] 7; mkOutput ["A"] 5])
    as [_ Hsum].
  - reflexivity.
  - cbn. apply NoDup_cons_2; [|apply NoDup_singleton].
    intros H%list_elem_of_singleton. discriminate.
  - assert (Htrue : is_same_topology {[ "A" := 5; "B" := 7 ]}
                      [mkOutput ["B"] 7; mkOutput ["A"] 5] = Return true)
      by (vm_compute; reflexivity).
    split; [exact Htrue | exact (Hsum Htrue)].
Defined.

Lemma group_votes_by_first_appearance_witness :
  let v1 := Scenario.vote "v1" "bb" "A" 5 in
  let v2 := Scenario.vote "v2" "aa" "A" 5 in
  let v3 := Scenario.vote "v3" "bb" "B" 5 in
  group_votes [v1; Scenario.E1; v2; v3] []
  = Return [("bb", [v1; v3]); ("aa", [v2])].
Proof.
  cbv zeta.
  destruct (group_votes_by_first_appearance
              [Scenario.vote "v1" "bb" "A" 5; Scenario.E1;
               Scenario.vote "v2" "aa" "A" 5; Scenario.vote "v3" "bb" "B" 5])
    as [Hgroup _].
  - repeat constructor; intros; (discriminate || (cbn; eauto)).
  - rewrite Hgroup. vm_compute. reflexivity.
Defined.

Lemma approved_elections_skips_unknown_elections_witness :
  let bigchain := Scenario.chain Scenario.ABC [Scenario.E1] [] None None [] in
  approved_elections Scenario.decode_public_key Scenario.on_approval 7
    [Scenario.vote "v1" "bb" "A" 5; Scenario.E2; Scenario.vote "v2" "cc" "B" 5]
    bigchain
  = (Return [], bigchain).
Proof.
  cbv zeta. apply approved_elections_skips_unknown_elections.
  repeat constructor.
  - intros _. exists "bb". split; reflexivity.
  - discriminate.
  - intros _. exists "cc". split; reflexivity.
Defined.

(** The same bytes written in two ways. *)
Lemma to_public_key_injective_witness :
  fromhex "00ab" = fromhex "00 AB"
  /\ (is_hexdigest "00ab" = true -> is_hexdigest "00 AB" = true ->
      "00ab" = "00 AB").
Proof.
  apply (to_public_key_injective "00ab" "00 AB" (b58encode [x00; xab]));
    vm_compute; reflexivity.
Defined.
